(** * NobleMachine: a shallow embedding of the asynchronous state machines

    Two generations of the library are embedded.

    - [Sequencer]: the hybrid linear queue / state machine
      ([NobleMachine] built directly on the event emitter).  Two revisions
      of it are in the sources: [src/noblemachine.js] ([Rev1]) and the
      second document of [src/unnamed/part_000] ([Rev2], which adds the
      [wait] marker, [argdata] and a [running] test in [complete]).
    - [Core]: [Action], [StateMachine] and [TransitionQueue] of the first
      document of [src/unnamed/part_000].

    JavaScript objects are mutable and shared; the machine is therefore a
    record threaded through every call, and a call either returns, throws
    (the record survives the throw) or exhausts the recursion budget.
    The budget bounds the nesting of calls: beyond it the model gives no
    result, where the engine would raise a RangeError at the limit of its
    stack; every statement about a result names a budget that suffices.
    State names range over strings that are not names of properties every
    object inherits ([toString], [constructor], ...: see [inherited]), so
    that a lookup in [handlers] or [_handlers] finds what was registered
    or nothing; statements about names that were never registered say so
    in a hypothesis. *)

From Stdlib Require Import ZArith List String Lia Bool DecimalString DecimalNat.
From stdpp Require Import base gmap strings list.
Import ListNotations.
Local Open Scope string_scope.
Local Open Scope list_scope.

(** ** JavaScript values that reach the library *)

Inductive value :=
| VUndefined
| VNull
| VBool (b : bool)
| VNum (n : Z)
| VStr (s : string)
| VErrorObj (message : string) (stack : string)   (* an [Error] instance *)
| VAction (a : nat).                               (* an object with a [start] method *)

(** [v && v.start instanceof Function] *)
Definition startable (v : value) : bool :=
  match v with VAction _ => true | _ => false end.

(** [undefined == v] *)
Definition nullish (v : value) : bool :=
  match v with VUndefined | VNull => true | _ => false end.

(** Reading [v.stack]: [None] when the read itself raises a TypeError
    ([v] is [undefined] or [null]); otherwise the property, [None] inside
    when it is absent. *)
Definition stack_of (v : value) : option (option string) :=
  match v with
  | VUndefined | VNull => None
  | VErrorObj _ s => Some (Some s)
  | _ => Some None
  end.

(** Truthiness of a string: only the empty string is falsy. *)
Definition truthy_str (s : string) : bool := negb (String.eqb s "").

Inductive evname := Success | Error | Cancel.

Definition evname_eqb (a b : evname) : bool :=
  match a, b with
  | Success, Success | Error, Error | Cancel, Cancel => true
  | _, _ => false
  end.

(** ** The event emitter of the platform

    Actions and machines are event emitters.  Emitting 'error' on an
    emitter that has no 'error' listener throws. *)

Definition uncaught_error : value :=
  VErrorObj "Error: Uncaught, unspecified 'error' event."
            "Error: Uncaught, unspecified 'error' event.".

(** What the emitter of the platform throws for an 'error' event nobody
    listens to: the error itself when it is an [Error] instance. *)
Definition unheard_error (args : list value) : value :=
  match args with
  | VErrorObj msg stack :: _ => VErrorObj msg stack
  | _ => uncaught_error
  end.

(** Names every object inherits from [Object.prototype]: looked up in
    a plain object used as a map they are found without having been
    registered.  The lookups of the model are those of names that are not
    inherited. *)
Definition inherited (name : string) : bool :=
  existsb (String.eqb name)
    ["constructor"; "toString"; "toLocaleString"; "valueOf"; "hasOwnProperty";
     "isPrototypeOf"; "propertyIsEnumerable"; "__proto__"; "__defineGetter__";
     "__defineSetter__"; "__lookupGetter__"; "__lookupSetter__"].

Module Sequencer.

Inductive revision := Rev1 | Rev2.

(** A state is designated by name, by index in the main sequence, or by
    [undefined] (what [findState] returns out of range). *)
Inductive nameOrIndex :=
| Name (s : string)
| Index (i : Z)
| NoName.

(** What a client function does to the machine: the calls it makes on
    [me], in order, and possibly a final [throw]. *)
Inductive call :=
| CallToNext (args : list value)
| CallToPrev (args : list value)
| CallToRepeat (args : list value)
| CallToComplete (args : list value)
| CallToError (args : list value)
| CallToState (target : nameOrIndex) (args : list value)
| CallTransition (action : value) (success error : option string)
| CallEmitSuccess (args : list value)
| CallEmitError (args : list value)
| CallThrow (e : value).

(** A client function: a label under which its invocations are observed,
    its body as a function of the arguments it is applied to, and the
    [wait] property set by [next.wait] (always [false] in [Rev1]). *)
Record userfn := UserFn {
  label : nat;
  body : list value -> list call;
  wait : bool
}.

(** The functions handed to [makeHandler]: client functions, and the two
    functions the constructor registers for 'complete' and 'error'. *)
Inductive fn :=
| User (f : userfn)
| CompleteFn
| ErrorFn.

Inductive funcOrAct :=
| FUndefined
| FFunction (f : fn)
| FOther (v : value).

(** A listener pair added to an action by [transition]. *)
Record wiring := Wiring {
  w_action : nat;
  w_success : string;
  w_error : string;
  w_argdata : list value
}.

(** Observable effects, oldest first. *)
Inductive obs :=
| Called (lbl : nat) (args : list value)      (* a client function was applied *)
| Emitted (ev : evname) (args : list value)   (* me.emit(ev, args...) *)
| Logged (msg : string)                       (* NobleMachine.logger.error *)
| Started (a : nat).                          (* act.start() *)

Record machine := Machine {
  handlers : gmap string funcOrAct;   (* handlers[name] = makeHandler(funcOrAct) *)
  stateSequence : list string;
  stateIndex : Z;
  state : option string;              (* None: undefined *)
  running : bool;                     (* undefined counts as false *)
  transitioning : bool;
  completeHandler : option userfn;
  errorHandler : option userfn;
  exitHandler : option userfn;
  wired : list wiring;
  listeners : list evname;            (* the events of the listeners clients attached *)
  trace : list obs
}.

Inductive result :=
| Ok (m : machine)
| Throw (e : value) (m : machine)
| OutOfFuel.

Definition bind (r : result) (k : machine -> result) : result :=
  match r with
  | Ok m => k m
  | Throw e m => Throw e m
  | OutOfFuel => OutOfFuel
  end.

Notation "r >>= k" := (bind r k) (at level 50, left associativity).

Definition set_state (s : option string) (m : machine) : machine :=
  Machine (handlers m) (stateSequence m) (stateIndex m) s (running m)
    (transitioning m) (completeHandler m) (errorHandler m) (exitHandler m)
    (wired m) (listeners m) (trace m).

Definition set_stateIndex (i : Z) (m : machine) : machine :=
  Machine (handlers m) (stateSequence m) i (state m) (running m)
    (transitioning m) (completeHandler m) (errorHandler m) (exitHandler m)
    (wired m) (listeners m) (trace m).

Definition set_running (b : bool) (m : machine) : machine :=
  Machine (handlers m) (stateSequence m) (stateIndex m) (state m) b
    (transitioning m) (completeHandler m) (errorHandler m) (exitHandler m)
    (wired m) (listeners m) (trace m).

Definition set_transitioning (b : bool) (m : machine) : machine :=
  Machine (handlers m) (stateSequence m) (stateIndex m) (state m) (running m)
    b (completeHandler m) (errorHandler m) (exitHandler m)
    (wired m) (listeners m) (trace m).

Definition set_handlers (h : gmap string funcOrAct) (m : machine) : machine :=
  Machine h (stateSequence m) (stateIndex m) (state m) (running m)
    (transitioning m) (completeHandler m) (errorHandler m) (exitHandler m)
    (wired m) (listeners m) (trace m).

Definition set_stateSequence (l : list string) (m : machine) : machine :=
  Machine (handlers m) l (stateIndex m) (state m) (running m)
    (transitioning m) (completeHandler m) (errorHandler m) (exitHandler m)
    (wired m) (listeners m) (trace m).

Definition add_wiring (w : wiring) (m : machine) : machine :=
  Machine (handlers m) (stateSequence m) (stateIndex m) (state m) (running m)
    (transitioning m) (completeHandler m) (errorHandler m) (exitHandler m)
    (wired m ++ [w]) (listeners m) (trace m).

(** [me.addListener(ev, f)], called by the client; [f] is the client's and
    is observed through the emissions it hears. *)
Definition addListener (ev : evname) (m : machine) : machine :=
  Machine (handlers m) (stateSequence m) (stateIndex m) (state m) (running m)
    (transitioning m) (completeHandler m) (errorHandler m) (exitHandler m)
    (wired m) (listeners m ++ [ev]) (trace m).

Definition observe (o : obs) (m : machine) : machine :=
  Machine (handlers m) (stateSequence m) (stateIndex m) (state m) (running m)
    (transitioning m) (completeHandler m) (errorHandler m) (exitHandler m)
    (wired m) (listeners m) (trace m ++ [o]).

(** [me.state == s] for a string literal [s] *)
Definition state_is (s : string) (m : machine) : bool :=
  match state m with Some t => String.eqb t s | None => false end.

(** [me.state == state] for a state read earlier *)
Definition state_eqb (a b : option string) : bool :=
  match a, b with
  | Some s, Some t => String.eqb s t
  | None, None => true
  | _, _ => false
  end.

(** The property key a state is looked up under: [handlers[undefined]]
    reads the property named "undefined". *)
Definition key_of (s : option string) : string :=
  match s with Some t => t | None => "undefined" end.

(** [stateSequence[i]] *)
Definition seq_at (l : list string) (i : Z) : option string :=
  if (i <? 0)%Z then None else l !! Z.to_nat i.

(** [stateSequence.indexOf(s)], -1 when absent; [indexOf(undefined)] finds
    nothing in an array of strings. *)
Fixpoint index_from (l : list string) (s : string) (i : Z) : Z :=
  match l with
  | [] => (-1)%Z
  | x :: r => if String.eqb x s then i else index_from r s (i + 1)%Z
  end.

Definition indexOf (l : list string) (s : option string) : Z :=
  match s with Some t => index_from l t 0%Z | None => (-1)%Z end.

(** The errors the JavaScript runtime itself raises inside the library. *)
Definition type_error_no_handler : value :=
  VErrorObj "TypeError: Cannot call method 'apply' of undefined"
            "TypeError: Cannot call method 'apply' of undefined at go".
Definition type_error_stack : value :=
  VErrorObj "TypeError: Cannot read property 'stack' of undefined"
            "TypeError: Cannot read property 'stack' of undefined at go".
Definition type_error_addListener : value :=
  VErrorObj "TypeError: Object has no method 'addListener'"
            "TypeError: Object has no method 'addListener' at transition".
Definition reference_error_me : value :=
  VErrorObj "ReferenceError: me is not defined"
            "ReferenceError: me is not defined at toRepeat".

(** ** Declaration-time operations *)

(** [addState]: [me.handlers[name] = me.makeHandler(funcOrAct)].  The map
    keeps the declared value; [makeHandler] below is the closure built
    from it. *)
Definition addState (name : string) (f : funcOrAct) (m : machine) : machine :=
  set_handlers (<[name := f]> (handlers m)) m.

Definition nextState (name : string) (f : funcOrAct) (m : machine) : machine :=
  let m1 := addState name f m in
  set_stateSequence (stateSequence m1 ++ [name]) m1.

Definition complete (h : userfn) (m : machine) : machine :=
  Machine (handlers m) (stateSequence m) (stateIndex m) (state m) (running m)
    (transitioning m) (Some h) (errorHandler m) (exitHandler m)
    (wired m) (listeners m) (trace m).

Definition error (h : userfn) (m : machine) : machine :=
  Machine (handlers m) (stateSequence m) (stateIndex m) (state m) (running m)
    (transitioning m) (completeHandler m) (Some h) (exitHandler m)
    (wired m) (listeners m) (trace m).

Definition ensure (h : userfn) (m : machine) : machine :=
  Machine (handlers m) (stateSequence m) (stateIndex m) (state m) (running m)
    (transitioning m) (completeHandler m) (errorHandler m) (Some h)
    (wired m) (listeners m) (trace m).

(** The constructor, without the optional initial step. *)
Definition new_machine : machine :=
  addState "error" (FFunction ErrorFn)
    (addState "complete" (FFunction CompleteFn)
       (Machine ∅ [] (-1)%Z None false false None None None [] [] [])).

(** ** Emission

    [me.emit] is the event emitter of the platform.  The listeners that
    clients attach to the machine are not part of the library: an
    emission is recorded in the trace and returns, unless it is an
    'error' that has no listener, which the emitter throws. *)

Definition listening (ev : evname) (m : machine) : bool :=
  existsb (evname_eqb ev) (listeners m).

Definition emit (ev : evname) (args : list value) (m : machine) : result :=
  let m1 := observe (Emitted ev args) m in
  if evname_eqb ev Error && negb (listening Error m)
  then Throw (unheard_error args) m1
  else Ok m1.

Definition emitSuccess (args : list value) (m : machine) : result :=
  emit Success args (set_running false m).

Definition emitError (args : list value) (m : machine) : result :=
  emit Error args (set_running false m).

(** ** Run-time operations

    Every path that reaches a handler goes through [go]; the operations
    are written over [go_rec], the [go] of the next nesting level, and the
    knot is tied by [go] below. *)

Record opts := Opts {
  o_action : value;
  o_success : option string;
  o_error : option string;
  o_argdata : list value
}.

(** [x || d] for an optional string property *)
Definition or_default (x : option string) (d : string) : string :=
  match x with
  | Some s => if truthy_str s then s else d
  | None => d
  end.

Definition of_state (s : option string) : nameOrIndex :=
  match s with Some t => Name t | None => NoName end.

Definition findState (n : nameOrIndex) (m : machine) : option string :=
  match n with
  | Name s => Some s
  | Index i => seq_at (stateSequence m) i
  | NoName => None
  end.

Definition fn_wait (f : fn) : bool :=
  match f with User u => wait u | _ => false end.

Section Operations.

Variable rev : revision.
Variable go_rec : list value -> machine -> result.

Definition runState (n : nameOrIndex) (args : list value) (m : machine) : result :=
  let m1 := set_state (findState n m) m in
  let index := indexOf (stateSequence m1) (state m1) in
  let m2 := if (index =? -1)%Z then m1 else set_stateIndex index m1 in
  go_rec args m2.

Definition transition (o : opts) (m : machine) : result :=
  let err := or_default (o_error o) "error" in
  let suc := or_default (o_success o) "complete" in
  if nullish (o_action o) then Throw (VStr "Transition added with no action") m
  else match o_action o with
       | VAction act =>
           let argdata := match rev with Rev1 => [] | Rev2 => o_argdata o end in
           let m1 := add_wiring (Wiring act suc err argdata) m in
           let m2 := set_transitioning true m1 in
           Ok (observe (Started act) m2)
       | _ => Throw type_error_addListener m
       end.

Definition toState (n : nameOrIndex) (args : list value) (m : machine) : result :=
  let st := findState n m in
  match rev with
  | Rev1 =>
      match args with
      | [] | VUndefined :: _ => runState (of_state st) [] m
      | actOrVar :: _ =>
          if startable actOrVar
          then transition (Opts actOrVar st None []) m
          else runState (of_state st) [actOrVar] m
      end
  | Rev2 =>
      match args with
      | [] => runState (of_state st) [] m
      | a :: rest =>
          if startable a
          then transition (Opts a st None rest) m
          else runState (of_state st) args m
      end
  end.

Definition toComplete (args : list value) (m : machine) : result :=
  toState (Name "complete") args m.

Definition toError (args : list value) (m : machine) : result :=
  toState (Name "error") args m.

Definition toNext (args : list value) (m : machine) : result :=
  let nextState := (stateIndex m + 1)%Z in
  if (nextState <? Z.of_nat (length (stateSequence m)))%Z
  then toState (Index nextState) args m
  else toComplete args m.

Definition toPrev (args : list value) (m : machine) : result :=
  let nextState := (stateIndex m - 1)%Z in
  if (nextState <? 0)%Z
  then toError [VStr "Tried to transition earlier than the first state?!"] m
  else toState (Index nextState) args m.

(** In [Rev1] the body names a variable [me] that is not in scope. *)
Definition toRepeat (args : list value) (m : machine) : result :=
  match rev with
  | Rev1 => Throw reference_error_me m
  | Rev2 => toState (Index (stateIndex m)) args m
  end.

Definition exec_call (c : call) (m : machine) : result :=
  match c with
  | CallToNext args => toNext args m
  | CallToPrev args => toPrev args m
  | CallToRepeat args => toRepeat args m
  | CallToComplete args => toComplete args m
  | CallToError args => toError args m
  | CallToState target args => toState target args m
  | CallTransition action success error => transition (Opts action success error []) m
  | CallEmitSuccess args => emitSuccess args m
  | CallEmitError args => emitError args m
  | CallThrow e => Throw e m
  end.

Fixpoint exec_script (cs : list call) (m : machine) : result :=
  match cs with
  | [] => Ok m
  | c :: rest => exec_call c m >>= exec_script rest
  end.

Definition apply_user (f : userfn) (args : list value) (m : machine) : result :=
  exec_script (body f args) (observe (Called (label f) args) m).

Definition onExit (m : machine) : result :=
  match exitHandler m with
  | Some h => apply_user h [] m
  | None => Ok m
  end.

(** The function registered for 'complete' *)
Definition complete_fn (args : list value) (m : machine) : result :=
  (match completeHandler m with
   | Some h => apply_user h args m
   | None => Ok m
   end) >>= fun m1 =>
  onExit m1 >>= fun m2 =>
  let still := match rev with Rev1 => true | Rev2 => running m2 end in
  if still && negb (bool_decide (is_Some (completeHandler m2)))
  then emitSuccess args m2
  else Ok m2.

(** The function registered for 'error' *)
Definition error_fn (args : list value) (m : machine) : result :=
  (match errorHandler m with
   | Some h => apply_user h args m
   | None => Ok m
   end) >>= fun m1 =>
  onExit m1 >>= fun m2 =>
  if negb (bool_decide (is_Some (errorHandler m2)))
  then emitError args m2
  else Ok m2.

Definition apply_fn (f : fn) (args : list value) (m : machine) : result :=
  match f with
  | User u => apply_user u args m
  | CompleteFn => complete_fn args m
  | ErrorFn => error_fn args m
  end.

(** The test after the call of a plain function in [makeHandler] *)
Definition idle (f : fn) (state0 : option string) (m : machine) : bool :=
  match rev with
  | Rev1 => state_eqb (state m) state0 && negb (transitioning m) && running m
  | Rev2 => negb (fn_wait f) && state_eqb (state m) state0
            && negb (transitioning m) && running m
  end.

Definition makeHandler (funcOrAct : funcOrAct) (args : list value) (m : machine) : result :=
  let state0 := state m in
  match funcOrAct with
  | FUndefined => toNext [] m
  | FFunction f =>
      apply_fn f args m >>= fun m1 =>
      if idle f state0 m1 then toNext [] m1 else Ok m1
  | FOther v => toNext [v] m
  end.

(** The [catch] block of [go] *)
Definition go_catch (e : value) (m : machine) : result :=
  match stack_of e with
  | None => Throw type_error_stack m
  | Some st =>
      let m1 := match st with
                | Some s => if truthy_str s then observe (Logged s) m else m
                | None => m
                end in
      if state_is "error" m1 then emitError [e] m1 else toError [e] m1
  end.

Definition go_body (args : list value) (m : machine) : result :=
  let attempt :=
    match handlers m !! key_of (state m) with
    | Some h => makeHandler h args m
    | None => Throw type_error_no_handler m
    end in
  match attempt with
  | Throw e m1 => go_catch e m1
  | r => r
  end.

(** The listeners [transition] adds to the action *)
Definition on_success (w : wiring) (args : list value) (m : machine) : result :=
  runState (Name (w_success w)) (w_argdata w ++ args) (set_transitioning false m).

Definition on_error (w : wiring) (args : list value) (m : machine) : result :=
  runState (Name (w_error w)) args (set_transitioning false m).

End Operations.

Fixpoint go (rev : revision) (fuel : nat) (args : list value) (m : machine) : result :=
  match fuel with
  | O => OutOfFuel
  | S n => go_body rev (go rev n) args m
  end.

(** [start]: the synchronous part, and the function deferred to the next
    tick. *)
Definition start (m : machine) : machine := set_running true m.

Definition start_tick (rev : revision) (fuel : nat) (m : machine) : result :=
  toNext rev (go rev fuel) [] m.

(** ** The auto-advance decision of [makeHandler] *)

(** The condition in the words of the specification: state unchanged
    since entry, no always-wait marker, no asynchronous transition
    pending. *)
Definition idle_spec (f : fn) (state0 : option string) (m : machine) : bool :=
  state_eqb (state m) state0 && negb (fn_wait f) && negb (transitioning m).

(** A step that concludes the machine itself. *)
Definition emitter : userfn := UserFn 1 (fun _ => [CallEmitSuccess []]) false.

(** A started machine with that single step, inside the step. *)
Definition in_emitter_step : machine :=
  set_stateIndex 0
    (set_state (Some "state0")
       (start (nextState "state0" (FFunction (User emitter)) new_machine))).

Lemma state_eqb_refl s : state_eqb s s = true.
Proof. destruct s as [t|]; simpl; [apply String.eqb_refl | reflexivity]. Qed.

Lemma idle_spec_running rev f state0 m :
  (rev = Rev1 -> fn_wait f = false) ->
  idle rev f state0 m = idle_spec f state0 m && running m.
Proof.
  intros Hw. unfold idle, idle_spec. destruct rev.
  - rewrite Hw by reflexivity. simpl. now rewrite andb_true_r.
  - destruct (fn_wait f), (state_eqb (state m) state0); reflexivity.
Qed.

(** C1, as stated, fails: here the state is unchanged, the function has
    no wait marker and no transition is pending, yet the handler does
    nothing further, because the function has emitted success and the
    machine is no longer running. *)
Lemma makeHandler_three_conditions_counterexample :
  exists m1,
    apply_fn Rev2 (go Rev2 5) (User emitter) [] in_emitter_step = Ok m1 /\
    idle_spec (User emitter) (state in_emitter_step) m1 = true /\
    makeHandler Rev2 (go Rev2 5) (FFunction (User emitter)) [] in_emitter_step = Ok m1 /\
    toNext Rev2 (go Rev2 5) [] m1 <> Ok m1.
Proof.
  eexists. split; [reflexivity |]. split; [reflexivity |].
  split; [reflexivity |].
  intros H.
  apply (f_equal (fun r => match r with Ok m => state m | _ => None end)) in H.
  vm_compute in H. discriminate H.
Qed.

(** C1, amended: after a plain function returns, the handler advances to
    the next declared state with no arguments exactly when the state is
    unchanged, the function carries no wait marker, no transition is
    pending and the machine is still running; otherwise it does nothing
    further.  ([Rev1] has no wait marker at all.) *)
Theorem makeHandler_auto_advance rev go_rec f args m m1 :
  apply_fn rev go_rec f args m = Ok m1 ->
  (rev = Rev1 -> fn_wait f = false) ->
  makeHandler rev go_rec (FFunction f) args m =
    if idle_spec f (state m) m1 && running m1
    then toNext rev go_rec [] m1
    else Ok m1.
Proof.
  intros Hf Hw. unfold makeHandler. rewrite Hf. simpl.
  now rewrite (idle_spec_running rev f (state m) m1 Hw).
Qed.

Lemma makeHandler_auto_advance_witness :
  makeHandler Rev1 (go Rev1 5) (FFunction (User emitter)) [VNum 1] in_emitter_step =
  Ok (observe (Emitted Success [])
        (set_running false (observe (Called 1 [VNum 1]) in_emitter_step))).
Proof.
  rewrite (makeHandler_auto_advance Rev1 (go Rev1 5) (User emitter) [VNum 1]
             in_emitter_step
             (observe (Emitted Success [])
                (set_running false (observe (Called 1 [VNum 1]) in_emitter_step))));
    [reflexivity | reflexivity | reflexivity].
Defined.

(** ** Runs of a declared sequence *)

(** The machine holds the declared steps: [steps] pairs each name of the
    main sequence with the client function registered under it; the names
    are distinct and none is reserved; the two terminal states still hold
    the functions of the constructor. *)
Record declared (m : machine) (steps : list (string * userfn)) : Prop := Declared {
  d_sequence : stateSequence m = steps.*1;
  d_distinct : NoDup (steps.*1);
  d_not_complete : "complete" ∉ steps.*1;
  d_not_error : "error" ∉ steps.*1;
  d_steps : Forall (fun s => handlers m !! s.1 = Some (FFunction (User s.2))) steps;
  d_complete : handlers m !! "complete" = Some (FFunction CompleteFn);
  d_error : handlers m !! "error" = Some (FFunction ErrorFn)
}.

(** What a function that concludes the machine emits. *)
Definition emissions (cs : list call) : list obs :=
  match cs with
  | [CallEmitSuccess a] => [Emitted Success a]
  | [CallEmitError a] => [Emitted Error a]
  | _ => []
  end.

(** An emission that returns: an 'error' has a listener. *)
Definition heard (m : machine) (o : obs) : Prop :=
  match o with
  | Emitted Error _ => listening Error m = true
  | _ => True
  end.

(** The terminal state of event [ev] concludes the machine: a custom
    terminal handler, if any, makes a single [emitSuccess] or
    [emitError]; and what is emitted, by it or by default, is heard. *)
Definition concludes (m : machine) (ev : evname) (custom : option userfn)
    (args : list value) : Prop :=
  match custom with
  | Some h => emissions (body h args) <> [] /\ Forall (heard m) (emissions (body h args))
  | None => heard m (Emitted ev args)
  end.

(** The exit hook only observes. *)
Definition exit_quiet (m : machine) : Prop :=
  match exitHandler m with
  | Some h => body h [] = []
  | None => True
  end.

Definition exit_obs (exit : option userfn) : list obs :=
  match exit with
  | Some h => [Called (label h) []]
  | None => []
  end.

(** What a terminal state shows: without a custom handler the exit hook,
    then the emission of the arguments received; with one, the custom
    handler and what it emits, then the exit hook. *)
Definition terminal_obs (custom exit : option userfn) (ev : evname)
    (args : list value) : list obs :=
  match custom with
  | None => exit_obs exit ++ [Emitted ev args]
  | Some h => Called (label h) args :: emissions (body h args) ++ exit_obs exit
  end.

Definition log_of (e : value) : list obs :=
  match stack_of e with
  | Some (Some s) => if truthy_str s then [Logged s] else []
  | _ => []
  end.

(** What a run from [toNext()] shows when each remaining step returns
    without calling the machine or throws. *)
Fixpoint expected (m : machine) (suf : list (string * userfn)) : list obs :=
  match suf with
  | [] => terminal_obs (completeHandler m) (exitHandler m) Success []
  | (_, f) :: rest =>
      Called (label f) [] ::
      match body f [] with
      | [CallThrow e] =>
          log_of e ++ terminal_obs (errorHandler m) (exitHandler m) Error [e]
      | _ => expected m rest
      end
  end.

Fixpoint outcome (suf : list (string * userfn)) : string :=
  match suf with
  | [] => "complete"
  | (_, f) :: rest =>
      match body f [] with
      | [CallThrow _] => "error"
      | _ => outcome rest
      end
  end.

(** A step of the kind these runs are about: no wait marker, and applied
    to no arguments it returns at once or throws a value that is neither
    [undefined], [null] nor startable. *)
Definition plain_step (m : machine) (s : string * userfn) : Prop :=
  wait s.2 = false /\
  (body s.2 [] = [] \/
   exists e, body s.2 [] = [CallThrow e] /\ nullish e = false /\
             startable e = false /\ concludes m Error (errorHandler m) [e]).

Definition returns (s : string * userfn) : Prop :=
  wait s.2 = false /\ body s.2 [] = [].

Lemma index_from_app pre n rest i0 :
  n ∉ pre -> index_from (pre ++ n :: rest) n i0 = (i0 + Z.of_nat (length pre))%Z.
Proof.
  revert i0. induction pre as [|x pre IH]; intros i0 Hn; simpl.
  - rewrite String.eqb_refl. lia.
  - apply not_elem_of_cons in Hn as [Hx Hp].
    destruct (String.eqb_spec x n) as [->|_]; [congruence |].
    rewrite IH by assumption. lia.
Qed.

Lemma index_from_absent l n i0 : n ∉ l -> index_from l n i0 = (-1)%Z.
Proof.
  revert i0. induction l as [|x l IH]; intros i0 Hn; simpl; [reflexivity |].
  apply not_elem_of_cons in Hn as [Hx Hl].
  destruct (String.eqb_spec x n) as [->|_]; [congruence | now apply IH].
Qed.

Lemma seq_at_middle (pre : list string) n rest :
  seq_at (pre ++ n :: rest) (Z.of_nat (length pre)) = Some n.
Proof.
  unfold seq_at. destruct (Z.ltb_spec (Z.of_nat (length pre)) 0); [lia |].
  rewrite Nat2Z.id. now rewrite list_lookup_middle.
Qed.

Lemma declared_ext m m' steps :
  handlers m' = handlers m -> stateSequence m' = stateSequence m ->
  declared m steps -> declared m' steps.
Proof.
  intros Hh Hs [H1 H2 H3 H4 H5 H6 H7].
  constructor; rewrite ?Hh, ?Hs; assumption.
Qed.

Lemma concludes_cases m ev custom args :
  concludes m ev custom args ->
  match custom with
  | Some h => exists a, body h args = [CallEmitSuccess a] \/
                        (body h args = [CallEmitError a] /\ listening Error m = true)
  | None => ev = Error -> listening Error m = true
  end.
Proof.
  destruct custom as [h|]; unfold concludes.
  - unfold emissions. destruct (body h args) as [|c [|c' cs]];
      [intros [H _]; congruence | | destruct c; intros [H _]; simpl in H; congruence].
    destruct c; simpl; try (intros [H _]; congruence); intros [_ H]; eauto.
    apply Forall_cons in H as [H _]. eauto.
  - intros H ->. exact H.
Qed.

Lemma concludes_ext m m' ev custom args :
  listeners m' = listeners m -> concludes m ev custom args -> concludes m' ev custom args.
Proof.
  intros Hl. unfold concludes, heard, listening. rewrite Hl. auto.
Qed.

Arguments idle : simpl never.

Lemma idle_stopped rev f state0 m : running m = false -> idle rev f state0 m = false.
Proof.
  intros H. unfold idle. rewrite H. destruct rev; now rewrite andb_false_r.
Qed.

Lemma app_cons_assoc {A} (l : list A) x r : (l ++ [x]) ++ r = l ++ x :: r.
Proof. now rewrite <- app_assoc. Qed.

Lemma emitSuccess_returns args m :
  emitSuccess args m = Ok (observe (Emitted Success args) (set_running false m)).
Proof. reflexivity. Qed.

Lemma emitError_heard args m :
  listening Error m = true ->
  emitError args m = Ok (observe (Emitted Error args) (set_running false m)).
Proof.
  intros H. unfold emitError, emit.
  change (listening Error (set_running false m)) with (listening Error m).
  now rewrite H.
Qed.

Lemma emitError_unheard args m :
  listening Error m = false ->
  emitError args m =
  Throw (unheard_error args) (observe (Emitted Error args) (set_running false m)).
Proof.
  intros H. unfold emitError, emit.
  change (listening Error (set_running false m)) with (listening Error m).
  now rewrite H.
Qed.

Arguments emit : simpl never.
Arguments emitSuccess : simpl never.
Arguments emitError : simpl never.

Ltac finish_terminal :=
  eexists; split; [reflexivity |]; simpl;
  repeat rewrite app_cons_assoc; rewrite ?app_nil_r; auto.

Lemma complete_phase rev k args m :
  handlers m !! "complete" = Some (FFunction CompleteFn) ->
  state m = Some "complete" -> running m = true ->
  concludes m Success (completeHandler m) args -> exit_quiet m ->
  exists m',
    go rev (S k) args m = Ok m' /\
    trace m' = trace m ++ terminal_obs (completeHandler m) (exitHandler m) Success args /\
    state m' = Some "complete" /\ running m' = false.
Proof.
  intros Hh Hs Hr Hc Hq. simpl. unfold go_body. rewrite Hs. simpl key_of. rewrite Hh.
  unfold makeHandler, apply_fn, complete_fn, onExit, apply_user, terminal_obs, exit_quiet in *.
  apply concludes_cases in Hc.
  destruct (completeHandler m) as [h|] eqn:Hch.
  - destruct Hc as [a [Hb|[Hb Hl]]]; rewrite Hb; cbn [exec_script exec_call bind].
    + rewrite emitSuccess_returns. cbn [bind exitHandler observe set_running].
      (destruct (exitHandler m) as [x|] eqn:Hx; [rewrite Hq |]); simpl;
        rewrite Hch; simpl; rewrite andb_false_r; cbn [bind];
        rewrite idle_stopped by reflexivity; finish_terminal.
    + rewrite emitError_heard by exact Hl. cbn [bind exitHandler observe set_running].
      (destruct (exitHandler m) as [x|] eqn:Hx; [rewrite Hq |]); simpl;
        rewrite Hch; simpl; rewrite andb_false_r; cbn [bind];
        rewrite idle_stopped by reflexivity; finish_terminal.
  - simpl. (destruct (exitHandler m) as [x|] eqn:Hx; [rewrite Hq |]); simpl;
      rewrite Hch, Hr; simpl;
      (replace (match rev with Rev1 => true | Rev2 => true end) with true
         by (now destruct rev)); simpl;
      rewrite ?emitSuccess_returns; cbn [bind];
      rewrite idle_stopped by reflexivity; finish_terminal.
Qed.

Lemma error_phase rev k args m :
  handlers m !! "error" = Some (FFunction ErrorFn) ->
  state m = Some "error" ->
  concludes m Error (errorHandler m) args -> exit_quiet m ->
  exists m',
    go rev (S k) args m = Ok m' /\
    trace m' = trace m ++ terminal_obs (errorHandler m) (exitHandler m) Error args /\
    state m' = Some "error" /\ running m' = false.
Proof.
  intros Hh Hs Hc Hq. simpl. unfold go_body. rewrite Hs. simpl key_of. rewrite Hh.
  unfold makeHandler, apply_fn, error_fn, onExit, apply_user, terminal_obs, exit_quiet in *.
  apply concludes_cases in Hc.
  destruct (errorHandler m) as [h|] eqn:Hch.
  - destruct Hc as [a [Hb|[Hb Hl]]]; rewrite Hb; cbn [exec_script exec_call bind].
    + rewrite emitSuccess_returns. cbn [bind exitHandler observe set_running].
      (destruct (exitHandler m) as [x|] eqn:Hx; [rewrite Hq |]); simpl;
        rewrite Hch; simpl; cbn [bind];
        rewrite idle_stopped by reflexivity; finish_terminal.
    + rewrite emitError_heard by exact Hl. cbn [bind exitHandler observe set_running].
      (destruct (exitHandler m) as [x|] eqn:Hx; [rewrite Hq |]); simpl;
        rewrite Hch; simpl; cbn [bind];
        rewrite idle_stopped by reflexivity; finish_terminal.
  - specialize (Hc eq_refl).
    simpl. (destruct (exitHandler m) as [x|] eqn:Hx; [rewrite Hq |]); simpl;
      rewrite Hch; simpl; rewrite emitError_heard by exact Hc; cbn [bind];
      rewrite idle_stopped by reflexivity; finish_terminal.
Qed.

Lemma toState_no_args rev gr n m :
  toState rev gr n [] m = runState gr (of_state (findState n m)) [] m.
Proof. now destruct rev. Qed.

Lemma toState_payload rev gr n e m :
  nullish e = false -> startable e = false ->
  toState rev gr n [e] m = runState gr (of_state (findState n m)) [e] m.
Proof. intros Hn Hs. destruct rev, e; simpl in *; congruence. Qed.

Lemma runState_name gr s args m :
  runState gr (Name s) args m =
  gr args (let i := index_from (stateSequence m) s 0 in
           if (i =? -1)%Z then set_state (Some s) m
           else set_stateIndex i (set_state (Some s) m)).
Proof. reflexivity. Qed.

Lemma expected_ext m m' suf :
  completeHandler m' = completeHandler m -> errorHandler m' = errorHandler m ->
  exitHandler m' = exitHandler m -> expected m' suf = expected m suf.
Proof.
  intros H1 H2 H3. induction suf as [|[n f] rest IH]; simpl.
  - now rewrite H1, H3.
  - now rewrite IH, H2, H3.
Qed.

Lemma go_returns rev k args m foa m' :
  handlers m !! key_of (state m) = Some foa ->
  makeHandler rev (go rev k) foa args m = Ok m' ->
  go rev (S k) args m = Ok m'.
Proof. intros Hl Hm. simpl. unfold go_body. now rewrite Hl, Hm. Qed.

Lemma go_catches rev k args m foa e m1 :
  handlers m !! key_of (state m) = Some foa ->
  makeHandler rev (go rev k) foa args m = Throw e m1 ->
  go rev (S k) args m = go_catch rev (go rev k) e m1.
Proof. intros Hl Hm. simpl. unfold go_body. now rewrite Hl, Hm. Qed.

Arguments go : simpl never.

Lemma idle_true rev f state0 m :
  fn_wait f = false -> state m = state0 -> transitioning m = false ->
  running m = true -> idle rev f state0 m = true.
Proof.
  intros Hw Hs Ht Hr. unfold idle.
  rewrite Hw, Hs, Ht, Hr, state_eqb_refl. now destruct rev.
Qed.

Lemma state_is_other s t m : state m = Some s -> s <> t -> state_is t m = false.
Proof.
  intros Hs Hne. unfold state_is. rewrite Hs. now apply String.eqb_neq.
Qed.

(** The catch block of [go] outside the 'error' state, for a thrown
    value that can be passed on as a payload. *)
Lemma catch_to_error rev k e m :
  nullish e = false -> startable e = false ->
  state_is "error" m = false ->
  handlers m !! "error" = Some (FFunction ErrorFn) ->
  index_from (stateSequence m) "error" 0 = (-1)%Z ->
  concludes m Error (errorHandler m) [e] -> exit_quiet m ->
  exists m',
    go_catch rev (go rev (S k)) e m = Ok m' /\
    trace m' = trace m ++ log_of e ++
               terminal_obs (errorHandler m) (exitHandler m) Error [e] /\
    state m' = Some "error" /\ running m' = false.
Proof.
  intros Hn Hs He Hh Hi Hc Hq. unfold go_catch, log_of.
  destruct (stack_of e) as [st|] eqn:Hst; [| destruct e; discriminate].
  set (m1 := match st with
             | Some s => if truthy_str s then observe (Logged s) m else m
             | None => m
             end).
  assert (Hm1 : state_is "error" m1 = false /\ handlers m1 = handlers m /\
                stateSequence m1 = stateSequence m /\ errorHandler m1 = errorHandler m /\
                exitHandler m1 = exitHandler m /\
                trace m1 = trace m ++ match st with
                                      | Some s => if truthy_str s then [Logged s] else []
                                      | None => []
                                      end /\
                listeners m1 = listeners m).
  { subst m1. destruct st as [s|]; [destruct (truthy_str s) |]; simpl;
      rewrite ?app_nil_r; auto 10. }
  destruct Hm1 as (E1 & E2 & E3 & E4 & E5 & E6 & E7). rewrite E1.
  unfold toError. rewrite (toState_payload _ _ _ _ _ Hn Hs). simpl findState. simpl of_state.
  rewrite runState_name, E3, Hi. simpl.
  destruct (error_phase rev k [e] (set_state (Some "error") m1))
    as (m' & F1 & F2 & F3 & F4).
  { simpl. now rewrite E2. }
  { reflexivity. }
  { simpl. rewrite E4. eapply concludes_ext; [| exact Hc]. simpl. exact E7. }
  { unfold exit_quiet in *. simpl. now rewrite E5. }
  exists m'. split; [exact F1 |]. split; [| auto].
  rewrite F2. simpl. rewrite E4, E5, E6. now rewrite <- app_assoc.
Qed.

Lemma toNext_enters rev gr (pre : list string) n rest m :
  stateSequence m = pre ++ n :: rest -> n ∉ pre ->
  stateIndex m = (Z.of_nat (length pre) - 1)%Z ->
  toNext rev gr [] m =
  gr [] (set_stateIndex (Z.of_nat (length pre)) (set_state (Some n) m)).
Proof.
  intros Hs Hn Hi. unfold toNext. rewrite Hi, Hs, length_app.
  replace (Z.of_nat (length pre) - 1 + 1)%Z with (Z.of_nat (length pre)) by lia.
  destruct (Z.ltb_spec (Z.of_nat (length pre))
              (Z.of_nat (length pre + length (n :: rest)))); [| simpl in *; lia].
  rewrite toState_no_args. unfold findState. rewrite Hs, seq_at_middle.
  unfold of_state. rewrite runState_name. cbv zeta.
  rewrite Hs, (index_from_app _ _ _ _ Hn). rewrite Z.add_0_l.
  destruct (Z.eqb_spec (Z.of_nat (length pre)) (-1)); [lia | reflexivity].
Qed.

Lemma toNext_completes rev gr m :
  stateIndex m = (Z.of_nat (length (stateSequence m)) - 1)%Z ->
  "complete" ∉ stateSequence m ->
  toNext rev gr [] m = gr [] (set_state (Some "complete") m).
Proof.
  intros Hi Hc. unfold toNext. rewrite Hi.
  destruct (Z.ltb_spec (Z.of_nat (length (stateSequence m)) - 1 + 1)
              (Z.of_nat (length (stateSequence m)))); [lia |].
  unfold toComplete. rewrite toState_no_args. unfold findState, of_state.
  rewrite runState_name. cbv zeta. now rewrite (index_from_absent _ _ _ Hc).
Qed.

Lemma chain rev k suf : forall pre m,
  declared m (pre ++ suf) ->
  stateIndex m = (Z.of_nat (length pre) - 1)%Z ->
  running m = true -> transitioning m = false ->
  concludes m Success (completeHandler m) [] -> exit_quiet m ->
  Forall (plain_step m) suf ->
  exists m',
    toNext rev (go rev (length suf + S k)) [] m = Ok m' /\
    trace m' = trace m ++ expected m suf /\
    state m' = Some (outcome suf) /\ running m' = false.
Proof.
  induction suf as [|[n f] rest IH]; intros pre m Hd Hi Hr Ht Hc Hq Hp.
  - destruct Hd as [H1 H2 H3 H4 H5 H6 H7]. rewrite app_nil_r in *.
    rewrite toNext_completes;
      [| now rewrite H1, length_fmap | now rewrite H1].
    destruct (complete_phase rev k [] (set_state (Some "complete") m))
      as (m' & E1 & E2 & E3 & E4); auto.
    exists m'. auto.
  - pose proof Hd as [H1 H2 H3 H4 H5 H6 H7].
    rewrite fmap_app in H1, H2, H3, H4. rewrite fmap_cons in H1, H2, H3, H4.
    cbn [fst] in H1, H2, H3, H4.
    apply NoDup_app in H2 as (_ & Hfresh & _).
    assert (Hnp : n ∉ pre.*1).
    { intros Hin. apply (Hfresh n Hin). left. }
    assert (Hn_err : n <> "error").
    { intros ->. apply H4. apply elem_of_app. right. left. }
    apply Forall_app in H5 as [_ H5]. apply Forall_cons in H5 as [Hf _]. cbn [fst snd] in Hf.
    apply Forall_cons in Hp as [[Hw Hb] Hp]. cbn [fst snd] in Hw, Hb.
    rewrite (toNext_enters _ _ _ _ _ _ H1 Hnp) by (now rewrite length_fmap).
    rewrite length_fmap.
    change (length ((n, f) :: rest) + S k) with (S (length rest + S k)).
    set (m2 := set_stateIndex _ _).
    set (m3 := observe (Called (label f) []) m2).
    destruct Hb as [Hb | (e & Hb & Hnull & Hstart & Hce)].
    + destruct (IH (pre ++ [(n, f)]) m3) as (m' & E1 & E2 & E3 & E4); auto.
      { rewrite <- app_assoc. eapply declared_ext; [| | exact Hd]; reflexivity. }
      { subst m3 m2. cbn. rewrite length_app. cbn. lia. }
      exists m'. split.
      * eapply go_returns; [exact Hf |].
        unfold makeHandler, apply_fn, apply_user. rewrite Hb. cbn [exec_script bind].
        fold m3. rewrite idle_true by auto. exact E1.
      * cbn [expected outcome]. rewrite Hb. split; [| auto]. rewrite E2.
        subst m3 m2. cbn [trace observe set_stateIndex set_state].
        rewrite app_cons_assoc. f_equal. f_equal. now apply expected_ext.
    + destruct (catch_to_error rev (length rest + k) e m3)
        as (m' & E1 & E2 & E3 & E4); auto.
      { eapply state_is_other; [reflexivity | exact Hn_err]. }
      { subst m3 m2. cbn. rewrite H1. now apply index_from_absent. }
      exists m'. split.
      * erewrite go_catches; [| exact Hf |].
        2:{ unfold makeHandler, apply_fn, apply_user. rewrite Hb. reflexivity. }
        fold m3. rewrite Nat.add_succ_r. exact E1.
      * cbn [expected outcome]. rewrite Hb. split; [| auto]. rewrite E2.
        subst m3 m2. cbn [trace observe set_stateIndex set_state errorHandler exitHandler].
        now rewrite app_cons_assoc.
Qed.

(** ** Reading a trace *)














Lemma returns_plain m steps : Forall returns steps -> Forall (plain_step m) steps.
Proof.
  intros H. eapply Forall_impl; [exact H |].
  intros s [Hw Hb]. split; [exact Hw | now left].
Qed.

Lemma expected_returns m steps :
  Forall returns steps ->
  expected m steps =
    map (fun s => Called (label s.2) []) steps ++
    terminal_obs (completeHandler m) (exitHandler m) Success [] /\
  outcome steps = "complete".
Proof.
  induction 1 as [|[n f] rest [Hw Hb] Hr [IH1 IH2]]; simpl; [auto |].
  simpl in Hb. rewrite Hb, IH1. auto.
Qed.

Lemma run_from_start rev m steps fuel :
  declared m steps -> Forall (plain_step m) steps ->
  stateIndex m = (-1)%Z -> transitioning m = false ->
  concludes m Success (completeHandler m) [] -> exit_quiet m ->
  length steps < fuel ->
  exists m',
    start_tick rev fuel (start m) = Ok m' /\
    trace m' = trace m ++ expected m steps /\
    state m' = Some (outcome steps) /\ running m' = false.
Proof.
  intros Hd Hp Hi Ht Hc Hq Hfuel.
  destruct (chain rev (fuel - S (length steps)) steps [] (start m))
    as (m' & E1 & E2 & E3 & E4);
    [ eapply declared_ext; [| | exact Hd]; reflexivity
    | exact Hi | reflexivity | exact Ht | exact Hc | exact Hq | exact Hp | ].
  exists m'. unfold start_tick.
  replace fuel with (length steps + S (fuel - S (length steps))) at 1 by lia.
  rewrite (expected_ext m (start m)) in E2 by reflexivity.
  repeat split; assumption.
Qed.

(** ** Example machines *)

Definition observer (l : nat) : userfn := UserFn l (fun _ => []) false.
Definition thrower (l : nat) (e : value) : userfn := UserFn l (fun _ => [CallThrow e]) false.

Definition three_steps : list (string * userfn) :=
  [("state0", observer 10); ("state1", observer 11); ("state2", observer 12)].


Definition declare (steps : list (string * userfn)) (m : machine) : machine :=
  fold_left (fun acc s => nextState s.1 (FFunction (User s.2)) acc) steps m.

Ltac by_computation := apply (bool_decide_unpack _); vm_compute; exact I.

Lemma declared_three : declared (declare three_steps new_machine) three_steps.
Proof.
  constructor; try reflexivity; try by_computation.
  repeat constructor.
Qed.





(** C6: a started machine with N declared steps, each of which returns
    without calling the machine (no asynchronous work, no jump, no wait
    marker), reaches 'complete' after exactly N handler invocations, in
    declared order: the trace of the run is the N calls in order followed
    by what the 'complete' state shows. *)
Theorem declared_steps_run_in_order rev m steps fuel :
  declared m steps -> Forall returns steps ->
  stateIndex m = (-1)%Z -> transitioning m = false ->
  concludes m Success (completeHandler m) [] -> exit_quiet m ->
  length steps < fuel ->
  exists m',
    start_tick rev fuel (start m) = Ok m' /\
    trace m' = trace m ++ map (fun s => Called (label s.2) []) steps ++
               terminal_obs (completeHandler m) (exitHandler m) Success [] /\
    state m' = Some "complete" /\ running m' = false.
Proof.
  intros Hd Hr Hi Ht Hc Hq Hfuel.
  destruct (run_from_start rev m steps fuel Hd (returns_plain m steps Hr) Hi Ht Hc Hq Hfuel)
    as (m' & E1 & E2 & E3 & E4).
  destruct (expected_returns m steps Hr) as [X1 X2].
  exists m'. rewrite <- X1, <- X2. auto.
Qed.

Lemma declared_steps_run_in_order_witness :
  exists m',
    start_tick Rev1 4 (start (declare three_steps new_machine)) = Ok m' /\
    trace m' = [] ++ [Called 10 []; Called 11 []; Called 12 []] ++ [Emitted Success []] /\
    state m' = Some "complete" /\ running m' = false.
Proof.
  apply (declared_steps_run_in_order Rev1 (declare three_steps new_machine) three_steps 4).
  - exact declared_three.
  - repeat constructor.
  - reflexivity.
  - reflexivity.
  - exact I.
  - exact I.
  - simpl. lia.
Defined.




(** ** Exceptions and [go] *)

(** The machine after the [if (e.stack) logger.error(e.stack)] of [go]. *)
Definition logged (e : value) (m : machine) : machine :=
  match stack_of e with
  | Some (Some s) => if truthy_str s then observe (Logged s) m else m
  | _ => m
  end.

Lemma state_is_logged s e m : state_is s (logged e m) = state_is s m.
Proof.
  unfold logged. destruct (stack_of e) as [[t|]|]; try reflexivity.
  now destruct (truthy_str t).
Qed.

Lemma listening_logged ev e m : listening ev (logged e m) = listening ev m.
Proof.
  unfold logged. destruct (stack_of e) as [[t|]|]; try reflexivity.
  now destruct (truthy_str t).
Qed.

Lemma go_catch_not_nullish rev gr e m :
  nullish e = false ->
  go_catch rev gr e m =
    if state_is "error" m
    then emitError [e] (logged e m)
    else toError rev gr [e] (logged e m).
Proof.
  intros He. rewrite <- (state_is_logged "error" e m). unfold go_catch, logged.
  destruct (stack_of e) as [[t|]|] eqn:Hst; try reflexivity.
  destruct e; discriminate.
Qed.







(** ** Registration in the sequencer *)

Lemma addState_replaces name f1 f2 m :
  handlers (addState name f2 (addState name f1 m)) !! name = Some f2 /\
  trace (addState name f2 (addState name f1 m)) = trace m.
Proof.
  split; [| reflexivity]. unfold addState. simpl. apply lookup_insert_eq.
Qed.

End Sequencer.

(** * Actions, state machines and the parallel queue

    Objects live in a store indexed by identity.  What [emit] and [cancel]
    may change while they run (the [state] of a machine, the counter of a
    started queue, the observations) is kept apart from what only the
    registration functions change (listeners, sub-actions, handlers). *)

(** String conversion, as in ["..." + error]; for an [Error] instance the
    [message] field stands for what its [toString] returns.  Numbers are
    the integers below 10^21, which JavaScript prints in plain decimal. *)
Definition to_string (v : value) : string :=
  match v with
  | VUndefined => "undefined"
  | VNull => "null"
  | VBool true => "true"
  | VBool false => "false"
  | VNum n => NilZero.string_of_int (Z.to_int n)
  | VStr s => s
  | VErrorObj msg _ => msg
  | VAction _ => "[object Object]"
  end.

Module Core.

(** A value stored in [_handlers]: [undefined]/[null], or a client
    function, observed under a label. *)
Inductive hvalue :=
| HNullish
| HFunction (lbl : nat).

(** The closures the library registers as listeners, and the listeners of
    clients, which are observed under a tag. *)
Inductive listener :=
| LGuard                                   (* Action, lines 30-39 *)
| LBubble (parent sub : nat)               (* addAction, lines 53-59 *)
| LTransition (machine : nat) (target : option string) (data : option value)
                                           (* StateMachine.transition, lines 136-147 *)
| LCount (queue : nat)                     (* TransitionQueue.start, lines 207-212 *)
| LClient (tag : nat).

Record action := Action {
  on_success : list listener;
  on_error : list listener;
  on_cancel : list listener;
  subActions : list nat;
  handlers : gmap string hvalue            (* _handlers, of a StateMachine *)
}.

(** A transition spec [{action, success, error, data}]; [None] is an
    absent property (for [data], which is only tested for truth, an
    absent or falsy one). *)
Record spec := Spec {
  t_action : option nat;
  t_success : option string;
  t_error : option string;
  t_data : option value
}.

Record tqueue := TQueue {
  stateMachine : nat;
  finalState : string;
  transitions : list spec;
  started : bool
}.

Inductive obs :=
| Emit (a : nat) (ev : evname) (args : list value)        (* a.emit(ev, args...) *)
| Heard (tag a : nat) (ev : evname) (args : list value)   (* a client listener was called *)
| Ran (m lbl : nat) (args : list value)                   (* a state handler was applied *)
| Puts (s : string)                                       (* sys.puts *)
| Warned (s : string)                                     (* sys.error *)
| StartRequested (a : nat)                                (* a.start(): _start deferred *)
| Joined (q : nat).                                       (* a queue forces its final state *)

Record world := World {
  actions : gmap nat action;
  queues : gmap nat tqueue;
  cursor : gmap nat string;                (* me.state of each machine; absent: undefined *)
  completedItems : gmap nat nat;           (* the counter of each started queue *)
  log : list obs
}.

Inductive result :=
| Ok (w : world)
| Throw (e : value) (w : world)
| OutOfFuel.

Definition bind (r : result) (k : world -> result) : result :=
  match r with
  | Ok w => k w
  | Throw e w => Throw e w
  | OutOfFuel => OutOfFuel
  end.

Notation "r >>= k" := (bind r k) (at level 50, left associativity).

Fixpoint forEach {A} (f : A -> world -> result) (l : list A) (w : world) : result :=
  match l with
  | [] => Ok w
  | x :: rest => f x w >>= forEach f rest
  end.

Definition listeners (a : action) (ev : evname) : list listener :=
  match ev with
  | Success => on_success a
  | Error => on_error a
  | Cancel => on_cancel a
  end.

Definition add_listener (ev : evname) (l : listener) (a : action) : action :=
  match ev with
  | Success => Action (on_success a ++ [l]) (on_error a) (on_cancel a) (subActions a) (handlers a)
  | Error => Action (on_success a) (on_error a ++ [l]) (on_cancel a) (subActions a) (handlers a)
  | Cancel => Action (on_success a) (on_error a) (on_cancel a ++ [l]) (subActions a) (handlers a)
  end.

Definition push_sub (sub : nat) (a : action) : action :=
  Action (on_success a) (on_error a) (on_cancel a) (subActions a ++ [sub]) (handlers a).

Definition set_handler (st : string) (h : hvalue) (a : action) : action :=
  Action (on_success a) (on_error a) (on_cancel a) (subActions a) (<[st := h]> (handlers a)).

Definition observe (o : obs) (w : world) : world :=
  World (actions w) (queues w) (cursor w) (completedItems w) (log w ++ [o]).

Definition set_cursor (m : nat) (s : string) (w : world) : world :=
  World (actions w) (queues w) (<[m := s]> (cursor w)) (completedItems w) (log w).

Definition set_completed (q n : nat) (w : world) : world :=
  World (actions w) (queues w) (cursor w) (<[q := n]> (completedItems w)) (log w).

Definition update_action (id : nat) (f : action -> action) (w : world) : world :=
  World (alter f id (actions w)) (queues w) (cursor w) (completedItems w) (log w).

Definition update_queue (id : nat) (f : tqueue -> tqueue) (w : world) : world :=
  World (actions w) (alter f id (queues w)) (cursor w) (completedItems w) (log w).

Definition type_error_undefined : value :=
  VErrorObj "TypeError: Cannot read property of undefined"
            "TypeError: Cannot read property of undefined".

(** ** State machine *)

Definition state_name (s : option string) : string :=
  match s with Some t => t | None => "undefined" end.

Definition handler_of (w : world) (m : nat) : option hvalue :=
  match actions w !! m with
  | Some a => handlers a !! state_name (cursor w !! m)
  | None => None
  end.

Definition transitionNow (m : nat) (args : list value) (w : world) : result :=
  match handler_of w m with
  | Some (HFunction lbl) => Ok (observe (Ran m lbl args) w)
  | _ =>
      let msg := String.append "Undefined state: " (state_name (cursor w !! m)) in
      Throw (VStr msg) (observe (Puts msg) w)
  end.

Definition transitionTo (m : nat) (st : string) (args : list value) (w : world) : result :=
  transitionNow m args (set_cursor m st w).

(** [if (args[args.length-1] == undefined) args.pop()] *)
Definition pop_undefined (args : list value) : list value :=
  match last args with
  | Some v => if nullish v then removelast args else args
  | None => args
  end.

(** ** Emission and cancellation

    [emit] runs the listeners in order of registration; an exception
    thrown by one leaves [emit] at once.  The listeners call [emit] and
    [cancel] again, through [rec]. *)

Inductive command :=
| CEmit (a : nat) (ev : evname) (args : list value)
| CCancel (a : nat).

Section Bodies.

Variable rec : command -> world -> result.

(** The listener of the constructor: with no other 'error' listener the
    error is printed and thrown. *)
Definition guard (self : nat) (args : list value) (w : world) : result :=
  match actions w !! self with
  | Some a =>
      if Nat.eqb (length (on_error a)) 1
      then
        let error := hd VUndefined args in
        let w1 := match error with
                  | VErrorObj _ s => if truthy_str s then observe (Puts s) w else w
                  | _ => w
                  end in
        let err := String.append "Unhandled error in action: " (to_string error) in
        Throw (VStr err) (observe (Puts err) w1)
      else Ok w
  | None => Throw type_error_undefined w
  end.

Definition bubble (parent sub : nat) (args : list value) (w : world) : result :=
  match actions w !! parent with
  | Some p =>
      forEach (fun other w' => if Nat.eqb other sub then Ok w' else rec (CCancel other) w')
              (subActions p) w
      >>= rec (CEmit parent Error args)
  | None => Throw type_error_undefined w
  end.

Definition on_transition (m : nat) (target : option string) (data : option value)
    (args : list value) (w : world) : result :=
  let w1 := match target with Some s => set_cursor m s w | None => w end in
  let args1 := pop_undefined args in
  let args2 := match data with Some d => args1 ++ [d] | None => args1 end in
  transitionNow m args2 w1.

Definition on_count (q : nat) (w : world) : result :=
  match queues w !! q with
  | Some Q =>
      let n := S (default 0 (completedItems w !! q)) in
      let w1 := set_completed q n w in
      if Nat.eqb n (length (transitions Q))
      then transitionTo (stateMachine Q) (finalState Q) [] (observe (Joined q) w1)
      else Ok w1
  | None => Throw type_error_undefined w
  end.

Definition run_listener (self : nat) (ev : evname) (args : list value)
    (l : listener) (w : world) : result :=
  match l with
  | LGuard => guard self args w
  | LBubble parent sub => bubble parent sub args w
  | LTransition m target data => on_transition m target data args w
  | LCount q => on_count q w
  | LClient tag => Ok (observe (Heard tag self ev args) w)
  end.

Definition emit_body (a : nat) (ev : evname) (args : list value) (w : world) : result :=
  let w1 := observe (Emit a ev args) w in
  match actions w1 !! a with
  | Some obj =>
      match ev, listeners obj ev with
      | Error, [] => Throw (unheard_error args) w1
      | _, ls => forEach (run_listener a ev args) ls w1
      end
  | None => Throw type_error_undefined w1
  end.

Definition cancel_body (a : nat) (w : world) : result :=
  match actions w !! a with
  | Some obj =>
      forEach (fun sub w' => rec (CCancel sub) w') (subActions obj) w
      >>= rec (CEmit a Cancel [])
  | None => Throw type_error_undefined w
  end.

Definition exec_body (c : command) (w : world) : result :=
  match c with
  | CEmit a ev args => emit_body a ev args w
  | CCancel a => cancel_body a w
  end.

End Bodies.

Fixpoint exec (fuel : nat) (c : command) (w : world) : result :=
  match fuel with
  | O => OutOfFuel
  | S n => exec_body (exec n) c w
  end.

Definition emit (fuel : nat) (a : nat) (ev : evname) (args : list value) (w : world) : result :=
  exec fuel (CEmit a ev args) w.

Definition emitSuccess (fuel : nat) (a : nat) (args : list value) (w : world) : result :=
  emit fuel a Success args w.

Definition emitError (fuel : nat) (a : nat) (args : list value) (w : world) : result :=
  emit fuel a Error args w.

Definition cancel (fuel : nat) (a : nat) (w : world) : result :=
  exec fuel (CCancel a) w.

(** ** Construction and registration *)

(** [new Action(_start)] under a fresh identity. *)
Definition create (id : nat) (w : world) : world :=
  World (<[id := Action [] [LGuard] [] [] ∅]> (actions w))
        (queues w) (cursor w) (completedItems w) (log w).

Definition addListener (a : nat) (ev : evname) (l : listener) (w : world) : world :=
  update_action a (add_listener ev l) w.

(** [start] defers [_start] to the next tick. *)
Definition start (a : nat) (w : world) : world := observe (StartRequested a) w.

(** [addAction(subAction, opts)]; [opts] is [None] when omitted, else the
    truth value of its [bubbleErrors] property. *)
Definition bubbling (opts : option bool) : bool :=
  match opts with Some b => b | None => true end.

Definition addAction (parent sub : nat) (opts : option bool) (w : world) : world :=
  let bubbleErrors := bubbling opts in
  let w1 := update_action parent (push_sub sub) w in
  let w2 := if bubbleErrors then addListener sub Error (LBubble parent sub) w1 else w1 in
  start sub w2.

Definition addState (m : nat) (st : string) (h : hvalue) (w : world) : world :=
  match actions w !! m with
  | Some a =>
      match handlers a !! st with
      | Some (HFunction _) =>
          observe (Warned (String.append "Warning: a handler for "
                             (String.append st " has already been defined."))) w
      | _ => update_action m (set_handler st h) w
      end
  | None => w
  end.

(** Modelled from the spec: [mixin] is not in the sources; the
    specification gives the options of [transition] as
    [success='success', error='error'], defaults that a property supplied
    by the caller replaces. *)
Definition mixin (default : string) (given : option string) : string :=
  match given with Some s => s | None => default end.

Definition truthy_target (s : string) : option string :=
  if truthy_str s then Some s else None.

Definition transition (m : nat) (o : spec) (w : world) : result :=
  let success := mixin "success" (t_success o) in
  let error := mixin "error" (t_error o) in
  match t_action o with
  | None => Throw (VStr "Transition added with no action") w
  | Some act =>
      let w1 := addListener act Success (LTransition m (truthy_target success) (t_data o)) w in
      let w2 := if truthy_str error
                then addListener act Error (LTransition m (Some error) (t_data o)) w1
                else w1 in
      Ok (addAction m act (Some (negb (truthy_str error))) w2)
  end.

(** ** The parallel queue *)

Definition transitionQueue (q m : nat) (final : string) (w : world) : world :=
  World (actions w) (<[q := TQueue m final [] false]> (queues w))
        (cursor w) (completedItems w) (log w).

Definition push_transition (t : spec) (Q : tqueue) : tqueue :=
  TQueue (stateMachine Q) (finalState Q) (transitions Q ++ [t]) (started Q).

Definition mark_started (Q : tqueue) : tqueue :=
  TQueue (stateMachine Q) (finalState Q) (transitions Q) true.

Definition addTransition (q : nat) (t : spec) (w : world) : result :=
  match queues w !! q with
  | Some Q =>
      if started Q then Throw (VStr "Queue already started") w
      else Ok (update_queue q (push_transition t) w)
  | None => Throw type_error_undefined w
  end.

(** [transition[event]] is truthy *)
Definition declares (x : option string) : bool :=
  match x with Some s => truthy_str s | None => false end.

(** The counting listeners of one spec: on 'success' always, on 'error'
    when the spec itself names an error target. *)
Definition count_listeners (q : nat) (t : spec) (w : world) : world :=
  match t_action t with
  | Some act =>
      let w1 := addListener act Success (LCount q) w in
      if declares (t_error t) then addListener act Error (LCount q) w1 else w1
  | None => w
  end.

(** [TransitionQueue.prototype.start]; the counter [completedItems] is
    kept per queue, [start] being called once. *)
Definition queue_start (q : nat) (w : world) : result :=
  match queues w !! q with
  | Some Q =>
      let w1 := set_completed q 0 (update_queue q mark_started w) in
      (if Nat.eqb (length (transitions Q)) 0
       then transitionTo (stateMachine Q) (finalState Q) [] (observe (Joined q) w1)
       else Ok w1) >>= fun w2 =>
      forEach (fun t w' => transition (stateMachine Q) t w' >>= fun w'' =>
                           Ok (count_listeners q t w''))
              (transitions Q) w2
  | None => Throw type_error_undefined w
  end.

(** ** Unhandled errors *)

Definition stack_puts (error : value) : list obs :=
  match error with
  | VErrorObj _ s => if truthy_str s then [Puts s] else []
  | _ => []
  end.

(** C8: an Action whose only 'error' listener is the one of its
    constructor, on receiving an error, prints the stack trace when the
    error has one, prints the message and throws it: the emission never
    returns normally. *)
Theorem unhandled_error_is_fatal fuel a obj args w :
  actions w !! a = Some obj -> on_error obj = [LGuard] ->
  let err := String.append "Unhandled error in action: " (to_string (hd VUndefined args)) in
  exists w',
    emitError (S fuel) a args w = Throw (VStr err) w' /\
    log w' = log w ++ [Emit a Error args] ++ stack_puts (hd VUndefined args) ++ [Puts err].
Proof.
  intros Ha Hl err. unfold emitError, emit. simpl. unfold emit_body. simpl.
  rewrite Ha. simpl. rewrite Hl. simpl. unfold guard. simpl. rewrite Ha, Hl. simpl.
  eexists. split; [reflexivity |].
  destruct (hd VUndefined args) as [| | | | |msg s|]; simpl;
    try (now rewrite <- app_assoc).
  destruct (truthy_str s); simpl; now rewrite <- !app_assoc.
Qed.

Lemma unhandled_error_is_fatal_witness :
  exists w',
    emitError 1 0 [VErrorObj "Error: no route" "Error: no route at connect"]
      (create 0 (World ∅ ∅ ∅ ∅ [])) =
    Throw (VStr "Unhandled error in action: Error: no route") w' /\
    log w' = [] ++ [Emit 0 Error [VErrorObj "Error: no route" "Error: no route at connect"]]
             ++ [Puts "Error: no route at connect"]
             ++ [Puts "Unhandled error in action: Error: no route"].
Proof.
  apply (unhandled_error_is_fatal 0 0 (Action [] [LGuard] [] [] ∅)
           [VErrorObj "Error: no route" "Error: no route at connect"]
           (create 0 (World ∅ ∅ ∅ ∅ []))).
  - reflexivity.
  - reflexivity.
Defined.

(** ** Wiring an action into a machine *)

Lemma lookup_update_action id f w :
  actions (update_action id f w) !! id = f <$> actions w !! id.
Proof. unfold update_action. simpl. now rewrite lookup_alter_eq. Qed.

Lemma lookup_update_action_ne id id' f w :
  id <> id' -> actions (update_action id f w) !! id' = actions w !! id'.
Proof. intros H. unfold update_action. simpl. now rewrite lookup_alter_ne. Qed.

(** The listeners and the tracking [transition] leaves behind. *)
Lemma transition_wiring m o act pm obj w :
  t_action o = Some act -> m <> act ->
  actions w !! m = Some pm -> actions w !! act = Some obj ->
  let error := mixin "error" (t_error o) in
  let success := mixin "success" (t_success o) in
  exists w',
    transition m o w = Ok w' /\
    actions w' !! m = Some (push_sub act pm) /\
    actions w' !! act = Some
      (Action (on_success obj ++ [LTransition m (truthy_target success) (t_data o)])
              (on_error obj ++
                 (if truthy_str error
                  then [LTransition m (Some error) (t_data o)]
                  else [LBubble m act]))
              (on_cancel obj) (subActions obj) (handlers obj)) /\
    (forall id, id <> m -> id <> act -> actions w' !! id = actions w !! id) /\
    queues w' = queues w /\ cursor w' = cursor w /\
    completedItems w' = completedItems w /\
    log w' = log w ++ [StartRequested act].
Proof.
  intros Ha Hne Hm Hact error success. unfold transition. rewrite Ha.
  fold error success. eexists. split; [reflexivity |].
  destruct (truthy_str error); unfold addAction, start, addListener, observe, update_action;
    cbn [negb bubbling]; cbn [actions queues cursor completedItems log]; repeat split.
  all: try (intros id H1 H2).
  all: repeat (first [rewrite lookup_alter_eq | rewrite lookup_alter_ne by congruence]).
  all: rewrite ?Hm, ?Hact; reflexivity.
Qed.

(** A machine with an 'error' handler and a fresh action. *)
Definition machine_and_action : world :=
  addState 0 "error" (HFunction 5) (create 1 (create 0 (World ∅ ∅ ∅ ∅ []))).

Definition wired_without_target : result :=
  transition 0 (Spec (Some 1) None None None) machine_and_action.

(** C4, as stated, fails: no error target is supplied, yet no bubbling
    listener is registered on the action; when the action fails the
    machine enters its 'error' state and nothing is emitted on the
    machine. *)
Lemma transition_default_target_counterexample :
  exists w' obj',
    wired_without_target = Ok w' /\
    actions w' !! 1 = Some obj' /\
    on_error obj' = [LGuard; LTransition 0 (Some "error") None] /\
    emitError 3 1 [VStr "failed"] w' =
      Ok (observe (Ran 0 5 [VStr "failed"])
            (set_cursor 0 "error" (observe (Emit 1 Error [VStr "failed"]) w'))).
Proof.
  eexists. eexists. split; [reflexivity |]. split; [reflexivity |].
  split; reflexivity.
Qed.

(** C4, amended: [transition] tracks the action as a sub-action of the
    machine and starts it; the bubbling listener is registered exactly
    when the error target in effect (the supplied one, else the default
    'error') is falsy, so only when the caller supplies a falsy target;
    otherwise, and in particular when no error target is supplied, a
    failure of the action moves the machine to the error target and runs
    its handler with the error payload, and nothing is emitted on the
    machine. *)
Theorem transition_wires_action m o act pm obj w :
  t_action o = Some act -> m <> act ->
  actions w !! m = Some pm -> actions w !! act = Some obj ->
  let error := mixin "error" (t_error o) in
  exists w' pm' obj',
    transition m o w = Ok w' /\
    actions w' !! m = Some pm' /\ subActions pm' = subActions pm ++ [act] /\
    log w' = log w ++ [StartRequested act] /\
    actions w' !! act = Some obj' /\
    on_error obj' =
      on_error obj ++ (if truthy_str error
                       then [LTransition m (Some error) (t_data o)]
                       else [LBubble m act]) /\
    (truthy_str error = true -> on_error obj = [LGuard] ->
     forall lbl args fuel,
       handlers pm !! error = Some (HFunction lbl) ->
       exists w'',
         emitError (S fuel) act args w' = Ok w'' /\
         cursor w'' !! m = Some error /\
         log w'' = log w' ++
           [Emit act Error args;
            Ran m lbl (pop_undefined args ++
                       match t_data o with Some d => [d] | None => [] end)]).
Proof.
  intros Ha Hne Hm Hact error.
  destruct (transition_wiring m o act pm obj w Ha Hne Hm Hact)
    as (w' & E1 & E2 & E3 & E4 & E5 & E6 & E7 & E8).
  fold error in E3.
  eexists w', _, _. split; [exact E1 |]. split; [exact E2 |].
  split; [reflexivity |]. split; [exact E8 |]. split; [exact E3 |].
  split; [reflexivity |].
  intros Ht Hg lbl args fuel Hh. rewrite Ht in E3. rewrite Hg in E3.
  unfold emitError, emit. cbn [exec exec_body]. unfold emit_body.
  cbn [observe actions]. rewrite E3. cbn [listeners on_error app forEach bind].
  unfold run_listener at 1. unfold guard. cbn [observe actions]. rewrite E3.
  cbn [on_error app length Nat.eqb bind forEach run_listener].
  unfold on_transition, transitionNow, handler_of.
  cbn [set_cursor observe actions cursor]. rewrite E2, lookup_insert_eq.
  cbn [state_name push_sub handlers]. rewrite Hh. cbn [bind].
  eexists. split; [reflexivity |]. cbn [observe set_cursor cursor log].
  rewrite lookup_insert_eq. split; [reflexivity |].
  rewrite <- app_assoc. cbn [app]. destruct (t_data o); [reflexivity |].
  now rewrite app_nil_r.
Qed.

Lemma transition_wires_action_witness :
  exists w' obj',
    transition 0 (Spec (Some 1) None None None) machine_and_action = Ok w' /\
    actions w' !! 1 = Some obj' /\
    on_error obj' = [LGuard; LTransition 0 (Some "error") None] /\
    log w' = [StartRequested 1].
Proof.
  destruct (transition_wires_action 0 (Spec (Some 1) None None None) 1
              (Action [] [LGuard] [] [] {["error" := HFunction 5]})
              (Action [] [LGuard] [] [] ∅) machine_and_action
              eq_refl (Nat.neq_0_succ 0) eq_refl eq_refl)
    as (w' & pm' & obj' & E1 & E2 & E3 & E4 & E5 & E6 & E7).
  exists w', obj'. split; [exact E1 |]. split; [exact E5 |].
  split; [exact E6 | exact E4].
Defined.

(** ** Cancellation *)

Definition append_log (l : list obs) (w : world) : world :=
  World (actions w) (queues w) (cursor w) (completedItems w) (log w ++ l).

Definition is_client (l : listener) : bool :=
  match l with LClient _ => true | _ => false end.

(** What client listeners record when [a] emits [ev]. *)
Definition heard (a : nat) (ev : evname) (args : list value) (ls : list listener) : list obs :=
  flat_map (fun l => match l with LClient tag => [Heard tag a ev args] | _ => [] end) ls.

(** The sub-action tree below [a] is in the store, is less than [h]
    levels deep (so it has no cycle), and its 'cancel' listeners are
    those of clients. *)
Fixpoint cancellable (A : gmap nat action) (h : nat) (a : nat) : bool :=
  match h with
  | O => false
  | S h' =>
      match A !! a with
      | Some obj => forallb is_client (on_cancel obj) && forallb (cancellable A h') (subActions obj)
      | None => false
      end
  end.

(** What [cancel] on [a] records: the sub-actions first, in order, then
    [a] itself. *)
Fixpoint cancel_log (A : gmap nat action) (h : nat) (a : nat) : list obs :=
  match h with
  | O => []
  | S h' =>
      match A !! a with
      | Some obj =>
          flat_map (cancel_log A h') (subActions obj) ++
          Emit a Cancel [] :: heard a Cancel [] (on_cancel obj)
      | None => []
      end
  end.

Inductive descendant (A : gmap nat action) : nat -> nat -> Prop :=
| descendant_child p obj s :
    A !! p = Some obj -> In s (subActions obj) -> descendant A p s
| descendant_trans p s d :
    descendant A p s -> descendant A s d -> descendant A p d.

Lemma cancel_log_S A h a :
  cancel_log A (S h) a =
  match A !! a with
  | Some obj => flat_map (cancel_log A h) (subActions obj) ++
                Emit a Cancel [] :: heard a Cancel [] (on_cancel obj)
  | None => []
  end.
Proof. reflexivity. Qed.

Lemma cancellable_S A h a :
  cancellable A (S h) a =
  match A !! a with
  | Some obj => forallb is_client (on_cancel obj) && forallb (cancellable A h) (subActions obj)
  | None => false
  end.
Proof. reflexivity. Qed.

Lemma append_log_nil w : append_log [] w = w.
Proof. destruct w. unfold append_log. simpl. now rewrite app_nil_r. Qed.

Lemma append_log_app l1 l2 w : append_log l2 (append_log l1 w) = append_log (l1 ++ l2) w.
Proof. unfold append_log. simpl. now rewrite app_assoc. Qed.

Lemma observe_append o w : observe o w = append_log [o] w.
Proof. reflexivity. Qed.

(** Client listeners only record. *)
Lemma clients_run rec a ev args ls : forall w,
  forallb is_client ls = true ->
  forEach (run_listener rec a ev args) ls w = Ok (append_log (heard a ev args ls) w).
Proof.
  induction ls as [|l ls IH]; intros w Hc; simpl.
  - now rewrite append_log_nil.
  - apply andb_prop in Hc as [Hl Hls]. destruct l; try discriminate. simpl.
    rewrite IH by assumption. rewrite observe_append, append_log_app. reflexivity.
Qed.

Lemma emit_to_clients rec a ev args obj w :
  actions w !! a = Some obj -> listeners obj ev <> [] \/ ev <> Error ->
  forallb is_client (listeners obj ev) = true ->
  emit_body rec a ev args w =
  Ok (append_log (Emit a ev args :: heard a ev args (listeners obj ev)) w).
Proof.
  intros Ha Hne Hc. unfold emit_body. cbn [observe actions]. rewrite Ha.
  assert (E : forEach (run_listener rec a ev args) (listeners obj ev)
                (observe (Emit a ev args) w) =
              Ok (append_log (Emit a ev args :: heard a ev args (listeners obj ev)) w)).
  { rewrite clients_run by assumption. now rewrite observe_append, append_log_app. }
  destruct ev; try exact E.
  destruct (listeners obj Error) eqn:Hl; [| exact E].
  destruct Hne as [Hne | Hne]; congruence.
Qed.

Lemma cancel_subs n A h subs : forall w,
  actions w = A ->
  (forall s w', In s subs -> actions w' = A ->
     exec n (CCancel s) w' = Ok (append_log (cancel_log A h s) w')) ->
  forEach (fun sub w' => exec n (CCancel sub) w') subs w =
  Ok (append_log (flat_map (cancel_log A h) subs) w).
Proof.
  induction subs as [|s subs IH]; intros w Hw Hs; simpl.
  - now rewrite append_log_nil.
  - rewrite Hs by (auto; now left). cbn [bind].
    rewrite IH; [now rewrite append_log_app | exact Hw |].
    intros s' w' Hin Hw'. apply Hs; [now right | exact Hw'].
Qed.

(** [cancel] returns, having emitted 'cancel' through the whole tree. *)
Lemma cancel_exact h : forall a w fuel,
  cancellable (actions w) h a = true -> h < fuel ->
  cancel fuel a w = Ok (append_log (cancel_log (actions w) h a) w).
Proof.
  induction h as [|h IH]; intros a w fuel Hc Hf; [discriminate |].
  destruct fuel as [|n]; [lia |]. unfold cancel. cbn [exec exec_body]. unfold cancel_body.
  rewrite cancellable_S in Hc. rewrite cancel_log_S.
  destruct (actions w !! a) as [obj|] eqn:Ha; [| discriminate].
  apply andb_prop in Hc as [Hl Hsubs].
  rewrite (cancel_subs n (actions w) h (subActions obj) w eq_refl).
  - cbn [bind]. destruct n as [|n']; [lia |]. cbn [exec exec_body].
    rewrite (emit_to_clients _ a Cancel [] obj); [| exact Ha | now right | exact Hl].
    now rewrite append_log_app.
  - intros s w' Hin Hw'. rewrite <- Hw'. apply IH; [| lia].
    rewrite Hw'. rewrite forallb_forall in Hsubs. now apply Hsubs.
Qed.

Lemma cancel_log_child A h p obj s :
  A !! p = Some obj -> In s (subActions obj) ->
  incl (cancel_log A h s) (cancel_log A (S h) p).
Proof.
  intros Hp Hin o Ho. rewrite cancel_log_S, Hp. apply in_or_app. left.
  apply in_flat_map. eauto.
Qed.

Lemma flat_map_agree {X Y} (f g : X -> list Y) l :
  (forall x, In x l -> f x = g x) -> flat_map f l = flat_map g l.
Proof.
  induction l as [|x l IH]; intros H; simpl; [reflexivity |].
  rewrite (H x) by now left. f_equal. apply IH. intros y Hy. apply H. now right.
Qed.

Lemma cancel_log_mono A h : forall a, cancellable A h a = true ->
  cancel_log A (S h) a = cancel_log A h a.
Proof.
  induction h as [|h IH]; intros a Hc; [discriminate |].
  rewrite cancellable_S in Hc.
  rewrite (cancel_log_S A (S h) a), (cancel_log_S A h a).
  destruct (A !! a) as [obj|]; [| reflexivity].
  apply andb_prop in Hc as [_ Hsubs]. rewrite forallb_forall in Hsubs.
  f_equal. apply flat_map_agree. intros x Hx. apply IH. now apply Hsubs.
Qed.

Lemma cancellable_mono A h : forall a, cancellable A h a = true -> cancellable A (S h) a = true.
Proof.
  induction h as [|h IH]; intros a Hc; [discriminate |].
  rewrite cancellable_S in Hc. rewrite (cancellable_S A (S h) a).
  destruct (A !! a) as [obj|]; [| discriminate].
  apply andb_prop in Hc as [H1 H2]. rewrite H1. cbn [andb].
  rewrite forallb_forall in *. intros x Hx. apply IH. now apply H2.
Qed.

Lemma cancel_reaches_descendants A p d :
  descendant A p d ->
  forall h, cancellable A h p = true ->
  cancellable A h d = true /\ incl (cancel_log A h d) (cancel_log A h p).
Proof.
  induction 1 as [p obj s Hp Hin | p s d _ IH1 _ IH2]; intros h Hc.
  - destruct h as [|h]; [discriminate |].
    rewrite cancellable_S, Hp in Hc.
    apply andb_prop in Hc as [_ Hsubs]. rewrite forallb_forall in Hsubs.
    pose proof (Hsubs s Hin) as Hs.
    split; [now apply cancellable_mono |]. rewrite (cancel_log_mono A h s Hs).
    now apply (cancel_log_child A h p obj s).
  - destruct (IH1 h Hc) as [Hs Hi1]. destruct (IH2 h Hs) as [Hd Hi2].
    split; [exact Hd |]. intros o Ho. apply Hi1. now apply Hi2.
Qed.

Lemma cancel_log_self A h a : cancellable A h a = true -> In (Emit a Cancel []) (cancel_log A h a).
Proof.
  destruct h as [|h]; [discriminate |]. rewrite cancellable_S, cancel_log_S.
  destruct (A !! a) as [obj|]; [| discriminate]. intros _.
  apply in_or_app. right. now left.
Qed.

(** An action with one client listener on 'success'. *)
Definition listened_action : world :=
  addListener 0 Success (LClient 9) (create 0 (World ∅ ∅ ∅ ∅ [])).

(** C2, as stated, fails in its second half: the action is cancelled, and
    a later [emitSuccess] still reaches its listener. *)
Lemma cancelled_action_still_emits_counterexample :
  exists w1 w2,
    cancel 2 0 listened_action = Ok w1 /\
    emitSuccess 1 0 [VStr "done"] w1 = Ok w2 /\
    log w2 = [Emit 0 Cancel []; Emit 0 Success [VStr "done"];
              Heard 9 0 Success [VStr "done"]].
Proof.
  eexists. eexists. split; [reflexivity |]. split; reflexivity.
Qed.

Lemma forEach_cons {X} (f : X -> world -> result) x r w :
  forEach f (x :: r) w = f x w >>= forEach f r.
Proof. reflexivity. Qed.

Lemma guard_passes self args obj w :
  actions w !! self = Some obj -> 1 < length (on_error obj) ->
  guard self args w = Ok w.
Proof.
  intros Ha Hl. unfold guard. rewrite Ha.
  destruct (Nat.eqb_spec (length (on_error obj)) 1); [lia | reflexivity].
Qed.

Lemma emitError_to_clients n a args obj l ls w :
  actions w !! a = Some obj -> on_error obj = LGuard :: l :: ls ->
  forallb is_client (l :: ls) = true ->
  emitError (S n) a args w =
  Ok (append_log (Emit a Error args :: heard a Error args (l :: ls)) w).
Proof.
  intros Ha Hl Hc. unfold emitError, emit. cbn [exec exec_body]. unfold emit_body.
  cbn [observe actions]. rewrite Ha. cbn [listeners]. rewrite Hl.
  rewrite forEach_cons. cbn [run_listener].
  rewrite (guard_passes a args obj) by (try exact Ha; rewrite Hl; simpl; lia).
  cbn [bind]. rewrite (clients_run (exec n) a Error args (l :: ls)) by exact Hc.
  now rewrite observe_append, append_log_app.
Qed.

(** C2, amended: [cancel] on a parent whose sub-action tree is finite
    returns, having emitted 'cancel' on the parent and on every tracked
    descendant, transitively; the Action itself does not suppress later
    emissions: [emitSuccess] and [emitError] called after the
    cancellation still reach the listeners. *)
Theorem cancel_reaches_all_descendants h p w fuel :
  cancellable (actions w) h p = true -> h < fuel ->
  exists w' l,
    cancel fuel p w = Ok w' /\
    actions w' = actions w /\ log w' = log w ++ l /\
    In (Emit p Cancel []) l /\
    (forall d, descendant (actions w) p d -> In (Emit d Cancel []) l) /\
    (forall obj args n,
       actions w !! p = Some obj -> forallb is_client (on_success obj) = true ->
       emitSuccess (S n) p args w' =
       Ok (append_log (Emit p Success args :: heard p Success args (on_success obj)) w')) /\
    (forall obj args n x xs,
       actions w !! p = Some obj -> on_error obj = LGuard :: x :: xs ->
       forallb is_client (x :: xs) = true ->
       emitError (S n) p args w' =
       Ok (append_log (Emit p Error args :: heard p Error args (x :: xs)) w')).
Proof.
  intros Hc Hf. eexists _, _. split; [now apply (cancel_exact h) |].
  split; [reflexivity |]. split; [reflexivity |].
  split; [now apply cancel_log_self |]. split; [| split].
  - intros d Hd. destruct (cancel_reaches_descendants _ p d Hd h Hc) as [Hcd Hincl].
    apply Hincl. now apply cancel_log_self.
  - intros obj args n Ha Hs. unfold emitSuccess, emit. cbn [exec exec_body].
    apply (emit_to_clients _ p Success args obj); [exact Ha | now right | exact Hs].
  - intros obj args n x xs Ha Hl Hcl.
    now apply (emitError_to_clients n p args obj x xs).
Qed.

(** A parent 0 with sub-actions 1 and 2, and 3 below 1. *)
Definition family : world :=
  addAction 1 3 None
    (addAction 0 2 None
       (addAction 0 1 None
          (create 3 (create 2 (create 1 (create 0 (World ∅ ∅ ∅ ∅ []))))))).

Lemma cancel_reaches_all_descendants_witness :
  exists w' l,
    cancel 4 0 family = Ok w' /\ log w' = log family ++ l /\
    In (Emit 3 Cancel []) l.
Proof.
  destruct (cancel_reaches_all_descendants 3 0 family 4 eq_refl (Nat.lt_succ_diag_r 3))
    as (w' & l & E1 & E2 & E3 & E4 & E5 & _).
  exists w', l. split; [exact E1 |]. split; [exact E3 |].
  apply E5. eapply descendant_trans.
  - eapply (descendant_child _ 0 _ 1); [reflexivity | now left].
  - eapply (descendant_child _ 1 _ 3); [reflexivity | now left].
Defined.

(** ** Bubbling *)

Lemma forEach_app {X} (f : X -> world -> result) l1 l2 : forall w,
  forEach f (l1 ++ l2) w = forEach f l1 w >>= forEach f l2.
Proof.
  induction l1 as [|x l1 IH]; intros w; simpl; [reflexivity |].
  destruct (f x w); simpl; auto.
Qed.

(** What the cancellation of every sub-action other than [sub] records. *)
Definition others_log (A : gmap nat action) (h sub : nat) (subs : list nat) : list obs :=
  flat_map (fun s => if Nat.eqb s sub then [] else cancel_log A h s) subs.

Lemma cancel_others n A h sub subs : forall w,
  actions w = A -> h < n ->
  (forall s, In s subs -> s <> sub -> cancellable A h s = true) ->
  forEach (fun other w' => if Nat.eqb other sub then Ok w' else exec n (CCancel other) w')
          subs w =
  Ok (append_log (others_log A h sub subs) w).
Proof.
  induction subs as [|s subs IH]; intros w Hw Hn Hc; simpl.
  - now rewrite append_log_nil.
  - assert (Hrest : forall s', In s' subs -> s' <> sub -> cancellable A h s' = true).
    { intros s' Hin. apply Hc. now right. }
    destruct (Nat.eqb_spec s sub) as [->|Hne]; cbn [bind].
    + now apply IH.
    + pose proof (cancel_exact h s w n) as E. unfold cancel in E.
      rewrite E; [| rewrite Hw; apply Hc; [now left | exact Hne] | exact Hn].
      cbn [bind]. rewrite IH; [| exact Hw | exact Hn | exact Hrest].
      unfold others_log. now rewrite append_log_app, Hw.
Qed.

(** The bubbling listener at work, in any world where it is the last
    'error' listener of [sub]. *)
Lemma bubble_fires p sub pobj sobj clients w h args n :
  actions w !! p = Some pobj -> actions w !! sub = Some sobj ->
  on_error sobj = LGuard :: clients ++ [LBubble p sub] ->
  forallb is_client clients = true ->
  (forall s, In s (subActions pobj) -> s <> sub -> cancellable (actions w) h s = true) ->
  h < n ->
  emitError (S n) sub args w =
  emitError n p args
    (append_log (Emit sub Error args :: heard sub Error args clients ++
                 others_log (actions w) h sub (subActions pobj)) w).
Proof.
  intros Hp Hs Hl Hcl Hc Hn. unfold emitError, emit at 1. cbn [exec exec_body].
  unfold emit_body. cbn [observe actions]. rewrite Hs. cbn [listeners]. rewrite Hl.
  lazy beta iota. rewrite forEach_cons. cbn [run_listener].
  rewrite (guard_passes sub args sobj);
    [| exact Hs | rewrite Hl, length_cons, length_app; simpl; lia].
  cbn [bind]. rewrite forEach_app, clients_run by exact Hcl.
  cbn [bind forEach run_listener]. unfold bubble. cbn [append_log observe actions].
  rewrite Hp.
  rewrite (cancel_others n (actions w) h sub); [| reflexivity | exact Hn | exact Hc].
  cbn [bind]. rewrite observe_append, !append_log_app. cbn [app]. unfold emit.
  destruct (exec n (CEmit p Error args) _); reflexivity.
Qed.

(** The message of the constructor's listener. *)
Definition unhandled (args : list value) : string :=
  String.append "Unhandled error in action: " (to_string (hd VUndefined args)).

Lemma guard_alone n a obj args w :
  actions w !! a = Some obj -> on_error obj = [LGuard] ->
  emitError (S n) a args w =
  Throw (VStr (unhandled args))
    (append_log (Emit a Error args :: stack_puts (hd VUndefined args) ++
                 [Puts (unhandled args)]) w).
Proof.
  intros Ha Hl. unfold emitError, emit. cbn [exec exec_body]. unfold emit_body.
  cbn [observe actions]. rewrite Ha. cbn [listeners]. rewrite Hl.
  cbn [forEach run_listener]. unfold guard. cbn [observe actions]. rewrite Ha, Hl.
  cbn [length Nat.eqb bind]. unfold unhandled, stack_puts, append_log, observe.
  destruct (hd VUndefined args) as [| | | | |msg s|];
    cbn [log actions queues cursor completedItems app];
    rewrite <- ?app_assoc; try reflexivity.
  destruct (truthy_str s); cbn [log actions queues cursor completedItems app];
    rewrite <- ?app_assoc; reflexivity.
Qed.

(** C3: [addAction] with bubbling tracks the sub-action, registers the
    bubbling listener on it and starts it at once; when the sub-action
    fails afterwards, its earlier listeners are served, every other
    sub-action the parent tracks by then is cancelled, and the error is
    emitted on the parent with the same arguments: the parent's listeners
    hear it and the sub-action's [emitError] returns, or, when the parent
    has no listener but the constructor's, the error is fatal there and
    thrown out of the sub-action's [emitError]. *)
Theorem addAction_bubbles_failure p sub opts pobj sobj clients w :
  bubbling opts = true -> p <> sub ->
  actions w !! p = Some pobj -> actions w !! sub = Some sobj ->
  on_error sobj = LGuard :: clients -> forallb is_client clients = true ->
  let w1 := addAction p sub opts w in
  actions w1 !! p = Some (push_sub sub pobj) /\
  actions w1 !! sub = Some (add_listener Error (LBubble p sub) sobj) /\
  log w1 = log w ++ [StartRequested sub] /\
  forall w2 pobj2 h args n,
    actions w2 !! p = Some pobj2 ->
    actions w2 !! sub = Some (add_listener Error (LBubble p sub) sobj) ->
    (forall s, In s (subActions pobj2) -> s <> sub ->
       cancellable (actions w2) h s = true) ->
    h < n ->
    let cancelled := others_log (actions w2) h sub (subActions pobj2) in
    let before := Emit sub Error args :: heard sub Error args clients ++ cancelled in
    (forall s, In s (subActions pobj2) -> s <> sub -> In (Emit s Cancel []) cancelled) /\
    (forall x xs,
       on_error pobj2 = LGuard :: x :: xs -> forallb is_client (x :: xs) = true ->
       emitError (S n) sub args w2 =
       Ok (append_log (before ++ Emit p Error args :: heard p Error args (x :: xs)) w2)) /\
    (on_error pobj2 = [LGuard] ->
     emitError (S n) sub args w2 =
     Throw (VStr (unhandled args))
       (append_log (before ++ Emit p Error args :: stack_puts (hd VUndefined args) ++
                    [Puts (unhandled args)]) w2)).
Proof.
  intros Hb Hne Hp Hs Hl Hcl w1.
  split.
  { subst w1. unfold addAction, start, addListener, observe, update_action.
    rewrite Hb. cbn [actions]. rewrite lookup_alter_ne by congruence.
    now rewrite lookup_alter_eq, Hp. }
  split.
  { subst w1. unfold addAction, start, addListener, observe, update_action.
    rewrite Hb. cbn [actions]. rewrite lookup_alter_eq.
    now rewrite lookup_alter_ne, Hs by congruence. }
  split; [subst w1; unfold addAction; rewrite Hb; reflexivity |].
  intros w2 pobj2 h args n Hp2 Hs2 Hc Hn cancelled before.
  assert (Hfire : emitError (S n) sub args w2 = emitError n p args (append_log before w2)).
  { apply (bubble_fires p sub pobj2 (add_listener Error (LBubble p sub) sobj) clients w2 h);
      try assumption.
    cbn [add_listener on_error]. now rewrite Hl. }
  destruct n as [|n']; [lia |].
  split; [| split].
  - intros s Hin Hns. unfold cancelled, others_log. apply in_flat_map.
    exists s. split; [exact Hin |].
    destruct (Nat.eqb_spec s sub); [contradiction |].
    apply cancel_log_self. now apply Hc.
  - intros x xs Hlp Hclp. rewrite Hfire.
    rewrite (emitError_to_clients n' p args pobj2 x xs); [| exact Hp2 | exact Hlp | exact Hclp].
    now rewrite append_log_app.
  - intros Hlp. rewrite Hfire.
    rewrite (guard_alone n' p pobj2); [| exact Hp2 | exact Hlp].
    now rewrite append_log_app.
Qed.

(** A parent 0 with sub-actions 1 and 2, and a fresh action 3. *)
Definition siblings : world :=
  addAction 0 2 None
    (addAction 0 1 None
       (create 3 (create 2 (create 1 (create 0 (World ∅ ∅ ∅ ∅ [])))))).

(** The fresh action added to the parent, and a client listening for the
    parent's error. *)
Definition listened_family : world :=
  addListener 0 Error (LClient 8) (addAction 0 3 None siblings).

Lemma addAction_bubbles_failure_witness :
  emitError 3 3 [VStr "lost"] listened_family =
  Ok (append_log
        ((Emit 3 Error [VStr "lost"] :: [] ++ [Emit 1 Cancel []; Emit 2 Cancel []]) ++
         Emit 0 Error [VStr "lost"] :: [Heard 8 0 Error [VStr "lost"]])
        listened_family).
Proof.
  assert (Hc : forall s, In s [1; 2; 3] -> s <> 3 ->
                 cancellable (actions listened_family) 1 s = true).
  { intros s [<- | [<- | [<- | []]]] H; [reflexivity | reflexivity | now destruct H]. }
  destruct (addAction_bubbles_failure 0 3 None (Action [] [LGuard] [] [1; 2] ∅)
              (Action [] [LGuard] [] [] ∅) [] siblings
              eq_refl (Nat.neq_0_succ 2) eq_refl eq_refl eq_refl eq_refl)
    as (_ & _ & _ & E4).
  destruct (E4 listened_family (Action [] [LGuard; LClient 8] [] [1; 2; 3] ∅) 1
              [VStr "lost"] 2 eq_refl eq_refl Hc (Nat.lt_succ_diag_r 1))
    as (_ & F2 & _).
  exact (F2 (LClient 8) [] eq_refl eq_refl).
Defined.

(** ** The parallel queue: start *)

(** The listeners one spec of a started queue leaves on its action. *)
Definition registered (q m act : nat) (t : spec) (obj : action) : action :=
  let success := mixin "success" (t_success t) in
  let error := mixin "error" (t_error t) in
  Action
    (on_success obj ++ [LTransition m (truthy_target success) (t_data t); LCount q])
    (on_error obj ++
       (if truthy_str error then [LTransition m (Some error) (t_data t)] else [LBubble m act]) ++
       (if declares (t_error t) then [LCount q] else []))
    (on_cancel obj) (subActions obj) (handlers obj).

Definition register_spec (q m : nat) (t : spec) (w : world) : result :=
  transition m t w >>= fun w' => Ok (count_listeners q t w').

Fixpoint joins (q : nat) (l : list obs) : nat :=
  match l with
  | [] => 0
  | Joined q' :: r => (if Nat.eqb q' q then 1 else 0) + joins q r
  | _ :: r => joins q r
  end.

Lemma joins_app q l1 l2 : joins q (l1 ++ l2) = joins q l1 + joins q l2.
Proof.
  induction l1 as [|o l1 IH]; simpl; [reflexivity |].
  destruct o; rewrite IH; lia.
Qed.

Lemma register_spec_wiring q m t act pm obj w :
  t_action t = Some act -> m <> act ->
  actions w !! m = Some pm -> actions w !! act = Some obj ->
  exists w',
    register_spec q m t w = Ok w' /\
    actions w' !! m = Some (push_sub act pm) /\
    actions w' !! act = Some (registered q m act t obj) /\
    (forall id, id <> m -> id <> act -> actions w' !! id = actions w !! id) /\
    queues w' = queues w /\ cursor w' = cursor w /\
    completedItems w' = completedItems w /\
    log w' = log w ++ [StartRequested act].
Proof.
  intros Ha Hne Hm Hact.
  destruct (transition_wiring m t act pm obj w Ha Hne Hm Hact)
    as (w1 & E1 & E2 & E3 & E4 & E5 & E6 & E7 & E8).
  unfold register_spec. rewrite E1. cbn [bind]. eexists. split; [reflexivity |].
  unfold count_listeners, registered. rewrite Ha.
  destruct (declares (t_error t)); unfold addListener, update_action;
    cbn [actions queues cursor completedItems log]; repeat split; try assumption.
  all: try (intros id H1 H2).
  all: repeat (first [rewrite lookup_alter_eq | rewrite lookup_alter_ne by congruence]).
  all: rewrite ?E2, ?E3, ?E4 by congruence; try reflexivity.
  all: cbn [fmap option_fmap option_map add_listener
         on_success on_error on_cancel subActions handlers];
       rewrite <- ?app_assoc; cbn [app]; rewrite ?app_nil_r; reflexivity.
Qed.

Definition spec_action_in (w : world) (m : nat) (t : spec) : Prop :=
  exists a obj, t_action t = Some a /\ a <> m /\ actions w !! a = Some obj.

Definition start_requests (ts : list spec) : list obs :=
  flat_map (fun t => match t_action t with Some a => [StartRequested a] | None => [] end) ts.

Lemma joins_start_requests q ts : joins q (start_requests ts) = 0.
Proof.
  induction ts as [|t ts IH]; [reflexivity |]. unfold start_requests in *. simpl.
  rewrite joins_app, IH. now destruct (t_action t).
Qed.

(** The loop of [start] over the specs. *)
Lemma start_loop q m ts : forall w pm,
  actions w !! m = Some pm ->
  Forall (spec_action_in w m) ts -> NoDup (map t_action ts) ->
  exists w' pm',
    forEach (register_spec q m) ts w = Ok w' /\
    actions w' !! m = Some pm' /\ handlers pm' = handlers pm /\
    (forall t a obj, In t ts -> t_action t = Some a -> actions w !! a = Some obj ->
       actions w' !! a = Some (registered q m a t obj)) /\
    (forall id, id <> m -> ~ In (Some id) (map t_action ts) ->
       actions w' !! id = actions w !! id) /\
    queues w' = queues w /\ cursor w' = cursor w /\
    completedItems w' = completedItems w /\
    log w' = log w ++ start_requests ts.
Proof.
  induction ts as [|t ts IH]; intros w pm Hm Hts Hnd.
  - exists w, pm. simpl. rewrite app_nil_r. repeat split; auto. intros t a obj [].
  - apply Forall_cons in Hts as [(a & obj & Ha & Hne & Hobj) Hts].
    cbn [map] in Hnd. apply NoDup_cons in Hnd as [Hfresh Hnd].
    rewrite Ha in Hfresh. rewrite list_elem_of_In in Hfresh.
    destruct (register_spec_wiring q m t a pm obj w Ha (not_eq_sym Hne) Hm Hobj)
      as (w1 & E1 & E2 & E3 & E4 & E5 & E6 & E7 & E8).
    assert (Hts1 : Forall (spec_action_in w1 m) ts).
    { rewrite Forall_forall in Hts |- *. intros t' Hin.
      destruct (Hts t' Hin) as (a' & obj' & Ha' & Hne' & Hobj').
      exists a', obj'. split; [exact Ha' |]. split; [exact Hne' |].
      rewrite E4; [exact Hobj' | exact Hne' |].
      intros ->. apply Hfresh. rewrite <- Ha'. apply in_map.
      now apply list_elem_of_In. }
    destruct (IH w1 (push_sub a pm) E2 Hts1 Hnd)
      as (w' & pm' & F1 & F2 & F3 & F4 & F5 & F6 & F7 & F8 & F9).
    exists w', pm'. cbn [forEach]. rewrite E1. cbn [bind].
    split; [exact F1 |]. split; [exact F2 |]. split; [exact F3 |].
    split; [| split; [| repeat split; try congruence]].
    + intros t' a' obj' [<- | Hin] Ha' Hobj'.
      * assert (a' = a) as -> by congruence. assert (obj' = obj) as -> by congruence.
        rewrite F5; [exact E3 | exact Hne | exact Hfresh].
      * assert (Hne' : a' <> a).
        { intros ->. apply Hfresh. rewrite <- Ha'. now apply in_map. }
        rewrite Forall_forall in Hts.
        destruct (Hts t' (proj2 (list_elem_of_In _ _) Hin)) as (a'' & _ & Ha'' & Hnm & _).
        assert (a'' = a') as -> by congruence.
        apply (F4 t' a' obj' Hin Ha'). rewrite E4; [exact Hobj' | exact Hnm | exact Hne'].
    + intros id Hid Hnin. cbn [map] in Hnin. rewrite Ha in Hnin.
      rewrite F5; [| exact Hid | intros H; apply Hnin; now right].
      apply E4; [exact Hid |]. intros ->. apply Hnin. now left.
    + rewrite F9, E8. unfold start_requests. cbn [flat_map]. rewrite Ha.
      now rewrite <- app_assoc.
Qed.

(** ** The parallel queue: completion signals *)

(** A completion signal: the spec at [s_index] reports success or
    failure with some arguments. *)
Record signal := Signal {
  s_index : nat;
  s_ok : bool;
  s_args : list value
}.

Definition s_event (s : signal) : evname := if s_ok s then Success else Error.

(** A signal counts as a completion on success always, on error only if
    the spec declares an error target. *)
Definition counts (t : spec) (s : signal) : bool := s_ok s || declares (t_error t).

Definition deliver_one (fuel : nat) (ts : list spec) (s : signal) (w : world) : result :=
  match ts !! s_index s with
  | Some t =>
      match t_action t with
      | Some a => emit fuel a (s_event s) (s_args s) w
      | None => Ok w
      end
  | None => Ok w
  end.

Definition deliver (fuel : nat) (ts : list spec) (sigs : list signal) (w : world) : result :=
  forEach (deliver_one fuel ts) sigs w.

Definition label_at (pm : action) (st : string) : nat :=
  match handlers pm !! st with Some (HFunction l) => l | _ => 0 end.

(** The arguments a transition listener passes to the handler. *)
Definition handler_args (data : option value) (args : list value) : list value :=
  match data with
  | Some d => pop_undefined args ++ [d]
  | None => pop_undefined args
  end.

Definition s_target (t : spec) (s : signal) : string :=
  if s_ok s then mixin "success" (t_success t) else mixin "error" (t_error t).

(** What one signal records, [c] completions having been counted before
    it; [w] is the world before the queue was started. *)
Definition signal_log (w : world) (q : nat) (Q : tqueue) (pm : action)
    (c : nat) (s : signal) : list obs :=
  match transitions Q !! s_index s with
  | Some t =>
      match t_action t with
      | Some a =>
          match actions w !! a with
          | Some obj =>
              Emit a (s_event s) (s_args s) ::
              heard a (s_event s) (s_args s) (listeners obj (s_event s)) ++
              [Ran (stateMachine Q) (label_at pm (s_target t s))
                   (handler_args (t_data t) (s_args s))] ++
              (if counts t s && Nat.eqb (S c) (length (transitions Q))
               then [Joined q; Ran (stateMachine Q) (label_at pm (finalState Q)) []]
               else [])
          | None => []
          end
      | None => []
      end
  | None => []
  end.

Definition count_after (Q : tqueue) (c : nat) (s : signal) : nat :=
  match transitions Q !! s_index s with
  | Some t => if counts t s then S c else c
  | None => c
  end.

Fixpoint run_log (w : world) (q : nat) (Q : tqueue) (pm : action)
    (c : nat) (sigs : list signal) : list obs :=
  match sigs with
  | [] => []
  | s :: rest => signal_log w q Q pm c s ++ run_log w q Q pm (count_after Q c s) rest
  end.

Fixpoint counted (Q : tqueue) (sigs : list signal) : nat :=
  match sigs with
  | [] => 0
  | s :: rest => (count_after Q 0 s) + counted Q rest
  end.

(** A spec the theorem is about: its action is a distinct object whose
    own listeners are those of clients, its targets in effect are truthy
    and have handlers in the machine. *)
Definition spec_ready (w : world) (m : nat) (pm : action) (t : spec) : Prop :=
  exists a obj cl,
    t_action t = Some a /\ a <> m /\ actions w !! a = Some obj /\
    forallb is_client (on_success obj) = true /\
    on_error obj = LGuard :: cl /\ forallb is_client cl = true /\
    truthy_str (mixin "success" (t_success t)) = true /\
    truthy_str (mixin "error" (t_error t)) = true /\
    (exists l, handlers pm !! mixin "success" (t_success t) = Some (HFunction l)) /\
    (exists l, handlers pm !! mixin "error" (t_error t) = Some (HFunction l)).

Record ready (w : world) (q : nat) (Q : tqueue) (pm : action) : Prop := Ready {
  r_queue : queues w !! q = Some Q;
  r_machine : actions w !! stateMachine Q = Some pm;
  r_final : exists l, handlers pm !! finalState Q = Some (HFunction l);
  r_distinct : NoDup (map t_action (transitions Q));
  r_specs : Forall (spec_ready w (stateMachine Q) pm) (transitions Q)
}.

Lemma label_at_eq pm st l : handlers pm !! st = Some (HFunction l) -> label_at pm st = l.
Proof. intros H. unfold label_at. now rewrite H. Qed.

Lemma transitionTo_runs m st args w pm l :
  actions w !! m = Some pm -> handlers pm !! st = Some (HFunction l) ->
  transitionTo m st args w = Ok (observe (Ran m l args) (set_cursor m st w)).
Proof.
  intros Hm Hh. unfold transitionTo, transitionNow, handler_of.
  cbn [set_cursor actions cursor]. rewrite Hm, lookup_insert_eq.
  cbn [state_name]. now rewrite Hh.
Qed.

Lemma on_transition_runs m st data args w pm l :
  actions w !! m = Some pm -> handlers pm !! st = Some (HFunction l) ->
  on_transition m (Some st) data args w =
  Ok (observe (Ran m l (handler_args data args)) (set_cursor m st w)).
Proof.
  intros Hm Hh. unfold on_transition, handler_args.
  pose proof (transitionTo_runs m st) as E. unfold transitionTo in E.
  destruct data; now rewrite (E _ w pm l Hm Hh).
Qed.

Lemma on_count_step q Q c w pm l :
  queues w !! q = Some Q -> completedItems w !! q = Some c ->
  actions w !! stateMachine Q = Some pm ->
  handlers pm !! finalState Q = Some (HFunction l) ->
  on_count q w =
  Ok (if Nat.eqb (S c) (length (transitions Q))
      then observe (Ran (stateMachine Q) l [])
             (set_cursor (stateMachine Q) (finalState Q)
                (observe (Joined q) (set_completed q (S c) w)))
      else set_completed q (S c) w).
Proof.
  intros Hq Hc Hm Hh. unfold on_count. rewrite Hq, Hc.
  change (default 0 (Some c)) with c.
  destruct (Nat.eqb (S c) (length (transitions Q))); [| reflexivity].
  now rewrite (transitionTo_runs _ _ _ _ pm l).
Qed.

Section Started.

Variables (w : world) (q : nat) (Q : tqueue) (pm : action).
Hypothesis Hready : ready w q Q pm.

(** The world left by [start], as [start_loop] describes it. *)
Variables (w1 : world) (pm1 : action).
Hypothesis H_machine : actions w1 !! stateMachine Q = Some pm1.
Hypothesis H_handlers : handlers pm1 = handlers pm.
Hypothesis H_registered :
  forall t a obj, In t (transitions Q) -> t_action t = Some a ->
    actions w !! a = Some obj ->
    actions w1 !! a = Some (registered q (stateMachine Q) a t obj).
Hypothesis H_queue : queues w1 !! q = Some (mark_started Q).

Lemma signal_step n c s w' :
  actions w' = actions w1 -> queues w' = queues w1 ->
  completedItems w' !! q = Some c ->
  exists w'',
    deliver_one (S n) (transitions Q) s w' = Ok w'' /\
    actions w'' = actions w1 /\ queues w'' = queues w1 /\
    completedItems w'' !! q = Some (count_after Q c s) /\
    log w'' = log w' ++ signal_log w q Q pm c s.
Proof.
  intros Hact Hqs Hc. unfold deliver_one, signal_log, count_after.
  destruct (transitions Q !! s_index s) as [t|] eqn:Ht.
  2:{ exists w'. rewrite app_nil_r. auto. }
  assert (Hin : In t (transitions Q)).
  { apply list_elem_of_In. eapply list_elem_of_lookup_2. exact Ht. }
  destruct Hready as [R1 R2 [lf R3] R4 R5].
  rewrite Forall_forall in R5.
  destruct (R5 t (proj2 (list_elem_of_In _ _) Hin))
    as (a & obj & cl & Ha & Hne & Hobj & Hcs & Hce & Hcl & Hts & Hte & [ls Hls] & [le Hle]).
  rewrite Ha, Hobj.
  pose proof (H_registered t a obj Hin Ha Hobj) as Hreg.
  set (m := stateMachine Q) in *.
  unfold emit. cbn [exec exec_body]. unfold emit_body.
  cbn [observe actions]. rewrite Hact, Hreg.
  unfold counts, s_target, s_event.
  destruct (s_ok s).
  - (* success *)
    cbn [listeners registered on_success orb]. lazy beta iota.
    rewrite forEach_app, clients_run by exact Hcs. cbn [bind].
    unfold truthy_target. rewrite Hts.
    rewrite forEach_cons. cbn [run_listener].
    rewrite (on_transition_runs m _ _ _ _ pm1 ls);
      [| cbn [append_log observe actions]; now rewrite Hact
       | now rewrite H_handlers].
    cbn [bind]. rewrite forEach_cons. cbn [run_listener].
    rewrite (on_count_step q (mark_started Q) c _ pm1 lf);
      [| cbn [append_log observe set_cursor queues]; now rewrite Hqs
       | cbn [append_log observe set_cursor completedItems]; exact Hc
       | cbn [append_log observe set_cursor actions mark_started stateMachine];
         now rewrite Hact
       | cbn [mark_started finalState]; now rewrite H_handlers].
    cbn [bind forEach mark_started transitions stateMachine finalState andb].
    rewrite (label_at_eq pm _ ls Hls), (label_at_eq pm _ lf R3).
    destruct (Nat.eqb (S c) (length (transitions Q))); eexists;
      (split; [reflexivity |]);
      cbn [observe set_cursor set_completed append_log actions queues
           completedItems log];
      rewrite lookup_insert_eq; repeat split; try assumption;
      rewrite <- !app_assoc; reflexivity.
  - (* error *)
    cbn [listeners registered on_error orb]. rewrite Hce, Hte.
    change ((LGuard :: cl) ++ ?x) with (LGuard :: (cl ++ x)).
    lazy beta iota. rewrite forEach_cons. cbn [run_listener].
    rewrite (guard_passes a _ (registered q m a t obj));
      [| cbn [observe actions]; now rewrite Hact
       | cbn [registered on_error]; rewrite Hce, Hte; cbn [app length];
         rewrite length_app; cbn [app length]; lia].
    cbn [bind]. rewrite forEach_app, clients_run by exact Hcl. cbn [bind].
    cbn [app]. rewrite forEach_cons. cbn [run_listener].
    rewrite (on_transition_runs m _ _ _ _ pm1 le);
      [| cbn [append_log observe actions]; now rewrite Hact
       | now rewrite H_handlers].
    cbn [bind heard flat_map app].
    rewrite (label_at_eq pm _ le Hle), (label_at_eq pm _ lf R3).
    destruct (declares (t_error t)); cbn [forEach andb].
    + cbn [run_listener].
      rewrite (on_count_step q (mark_started Q) c _ pm1 lf);
        [| cbn [append_log observe set_cursor queues]; now rewrite Hqs
         | cbn [append_log observe set_cursor completedItems]; exact Hc
         | cbn [append_log observe set_cursor actions mark_started stateMachine];
           now rewrite Hact
         | cbn [mark_started finalState]; now rewrite H_handlers].
      cbn [bind mark_started transitions stateMachine finalState].
      destruct (Nat.eqb (S c) (length (transitions Q))); eexists;
        (split; [reflexivity |]);
        cbn [observe set_cursor set_completed append_log actions queues
             completedItems log];
        rewrite lookup_insert_eq; repeat split; try assumption;
        rewrite <- !app_assoc; reflexivity.
    + eexists. split; [reflexivity |].
      cbn [observe set_cursor set_completed append_log actions queues
           completedItems log].
      repeat split; try assumption.
      rewrite <- !app_assoc. reflexivity.
Qed.

End Started.

Lemma count_after_plus Q c s : count_after Q c s = c + count_after Q 0 s.
Proof.
  unfold count_after. destruct (transitions Q !! s_index s) as [t|]; [| lia].
  destruct (counts t s); lia.
Qed.

Lemma deliver_run w q Q pm w1 pm1 n :
  ready w q Q pm ->
  actions w1 !! stateMachine Q = Some pm1 -> handlers pm1 = handlers pm ->
  (forall t a obj, In t (transitions Q) -> t_action t = Some a ->
     actions w !! a = Some obj ->
     actions w1 !! a = Some (registered q (stateMachine Q) a t obj)) ->
  queues w1 !! q = Some (mark_started Q) ->
  forall sigs c w',
    actions w' = actions w1 -> queues w' = queues w1 ->
    completedItems w' !! q = Some c ->
    exists wN,
      deliver (S n) (transitions Q) sigs w' = Ok wN /\
      completedItems wN !! q = Some (c + counted Q sigs) /\
      log wN = log w' ++ run_log w q Q pm c sigs.
Proof.
  intros Hr H1 H2 H3 H4. induction sigs as [|s sigs IH]; intros c w' Ha Hq Hc.
  - exists w'. simpl. rewrite app_nil_r, Nat.add_0_r. auto.
  - destruct (signal_step w q Q pm Hr w1 pm1 H1 H2 H3 H4 n c s w' Ha Hq Hc)
      as (w'' & E1 & E2 & E3 & E4 & E5).
    destruct (IH (count_after Q c s) w'' E2 E3 E4) as (wN & F1 & F2 & F3).
    exists wN. unfold deliver in *. cbn [forEach]. rewrite E1. cbn [bind].
    split; [exact F1 |]. split.
    + rewrite F2. cbn [counted]. rewrite (count_after_plus Q c s). f_equal. lia.
    + rewrite F3, E5. cbn [run_log]. now rewrite app_assoc.
Qed.

Lemma joins_heard q a ev args ls : joins q (heard a ev args ls) = 0.
Proof.
  induction ls as [|l ls IH]; [reflexivity |]. unfold heard in *. cbn [flat_map].
  rewrite joins_app, IH. now destruct l.
Qed.

Lemma joins_signal_log w q Q pm c s :
  ready w q Q pm ->
  joins q (signal_log w q Q pm c s) =
  if Nat.ltb c (length (transitions Q)) && Nat.leb (length (transitions Q)) (count_after Q c s)
  then 1 else 0.
Proof.
  intros [R1 R2 R3 R4 R5]. unfold signal_log, count_after.
  destruct (transitions Q !! s_index s) as [t|] eqn:Ht.
  2:{ destruct (Nat.ltb_spec c (length (transitions Q)));
      destruct (Nat.leb_spec (length (transitions Q)) c); simpl; lia. }
  rewrite Forall_forall in R5.
  destruct (R5 t (list_elem_of_lookup_2 _ _ _ Ht))
    as (a & obj & cl & Ha & _ & Hobj & _).
  rewrite Ha, Hobj. cbn [joins]. rewrite joins_app, joins_heard. cbn [app joins].
  destruct (counts t s); cbn [andb].
  - destruct (Nat.eqb_spec (S c) (length (transitions Q)));
      destruct (Nat.ltb_spec c (length (transitions Q)));
      destruct (Nat.leb_spec (length (transitions Q)) (S c));
      cbn [joins andb]; rewrite ?Nat.eqb_refl; lia.
  - destruct (Nat.ltb_spec c (length (transitions Q)));
      destruct (Nat.leb_spec (length (transitions Q)) c); cbn [joins andb]; lia.
Qed.

Lemma joins_run_log w q Q pm sigs :
  ready w q Q pm -> forall c,
  joins q (run_log w q Q pm c sigs) =
  if Nat.ltb c (length (transitions Q)) && Nat.leb (length (transitions Q)) (c + counted Q sigs)
  then 1 else 0.
Proof.
  intros Hr. induction sigs as [|s sigs IH]; intros c.
  - cbn [run_log counted joins]. rewrite Nat.add_0_r.
    destruct (Nat.ltb_spec c (length (transitions Q)));
      destruct (Nat.leb_spec (length (transitions Q)) c); simpl; lia.
  - cbn [run_log counted]. rewrite joins_app, (joins_signal_log w q Q pm c s Hr), IH.
    rewrite (count_after_plus Q c s).
    assert (Hb : count_after Q 0 s <= 1).
    { unfold count_after. destruct (transitions Q !! s_index s) as [t|]; [| lia].
      destruct (counts t s); lia. }
    destruct (Nat.ltb_spec c (length (transitions Q)));
      destruct (Nat.leb_spec (length (transitions Q)) (c + count_after Q 0 s));
      destruct (Nat.ltb_spec (c + count_after Q 0 s) (length (transitions Q)));
      destruct (Nat.leb_spec (length (transitions Q))
                  (c + count_after Q 0 s + counted Q sigs));
      destruct (Nat.leb_spec (length (transitions Q))
                  (c + (count_after Q 0 s + counted Q sigs)));
      cbn [andb]; lia.
Qed.

Lemma spec_ready_action w m pm t : spec_ready w m pm t -> spec_action_in w m t.
Proof. intros (a & obj & cl & Ha & Hne & Hobj & _). now exists a, obj. Qed.

(** What [start] leaves behind. *)
Lemma queue_start_ready w q Q pm :
  ready w q Q pm ->
  exists w1 pm1,
    queue_start q w = Ok w1 /\
    actions w1 !! stateMachine Q = Some pm1 /\ handlers pm1 = handlers pm /\
    (forall t a obj, In t (transitions Q) -> t_action t = Some a ->
       actions w !! a = Some obj ->
       actions w1 !! a = Some (registered q (stateMachine Q) a t obj)) /\
    queues w1 !! q = Some (mark_started Q) /\
    completedItems w1 !! q = Some 0 /\
    log w1 = log w ++
      (if Nat.eqb (length (transitions Q)) 0
       then [Joined q; Ran (stateMachine Q) (label_at pm (finalState Q)) []]
       else []) ++
      start_requests (transitions Q).
Proof.
  intros [R1 R2 [lf R3] R4 R5]. unfold queue_start. rewrite R1.
  set (w0 := set_completed q 0 (update_queue q mark_started w)).
  assert (Hspecs : forall w', actions w' = actions w ->
            Forall (spec_action_in w' (stateMachine Q)) (transitions Q)).
  { intros w' Hw'. eapply Forall_impl; [exact R5 |]. intros t Ht.
    destruct (spec_ready_action _ _ _ _ Ht) as (a & obj & Ha & Hne & Hobj).
    exists a, obj. now rewrite Hw'. }
  destruct (Nat.eqb (length (transitions Q)) 0) eqn:HK.
  - rewrite (transitionTo_runs _ _ _ _ pm lf); [| exact R2 | exact R3]. cbn [bind].
    set (wj := observe _ _).
    destruct (start_loop q (stateMachine Q) (transitions Q) wj pm R2 (Hspecs wj eq_refl) R4)
      as (w1 & pm1 & F1 & F2 & F3 & F4 & F5 & F6 & F7 & F8 & F9).
    exists w1, pm1. split; [exact F1 |]. split; [exact F2 |]. split; [exact F3 |].
    split; [intros t a obj Hin Ha Hobj; now apply (F4 t a obj) |].
    split; [rewrite F6; subst wj w0; cbn; now rewrite lookup_alter_eq, R1 |].
    split; [rewrite F8; subst wj w0; cbn; now rewrite lookup_insert_eq |].
    rewrite F9. subst wj w0. cbn [observe set_cursor set_completed update_queue log].
    rewrite (label_at_eq pm _ lf R3). now rewrite <- !app_assoc.
  - cbn [bind].
    destruct (start_loop q (stateMachine Q) (transitions Q) w0 pm R2 (Hspecs w0 eq_refl) R4)
      as (w1 & pm1 & F1 & F2 & F3 & F4 & F5 & F6 & F7 & F8 & F9).
    exists w1, pm1. split; [exact F1 |]. split; [exact F2 |]. split; [exact F3 |].
    split; [intros t a obj Hin Ha Hobj; now apply (F4 t a obj) |].
    split; [rewrite F6; subst w0; cbn; now rewrite lookup_alter_eq, R1 |].
    split; [rewrite F8; subst w0; cbn; now rewrite lookup_insert_eq |].
    rewrite F9. reflexivity.
Qed.

(** C5: a parallel queue of K specs, once started, forces the final state
    of its machine exactly once, at the K-th completion signal, whatever
    the order of the signals: after any sequence of signals the number of
    joins is 1 if at least K of them counted and 0 otherwise, a signal
    counting on success always and on error only if its spec declares an
    error target.  With K = 0 the join happens in [start] itself. *)
Theorem parallel_queue_joins_once w q Q pm sigs n :
  ready w q Q pm ->
  exists w1 wN,
    queue_start q w = Ok w1 /\
    deliver (S n) (transitions Q) sigs w1 = Ok wN /\
    log w1 = log w ++
      (if Nat.eqb (length (transitions Q)) 0
       then [Joined q; Ran (stateMachine Q) (label_at pm (finalState Q)) []]
       else []) ++
      start_requests (transitions Q) /\
    log wN = log w1 ++ run_log w q Q pm 0 sigs /\
    joins q (log wN) =
      joins q (log w) +
      (if Nat.leb (length (transitions Q)) (counted Q sigs) then 1 else 0).
Proof.
  intros Hr.
  destruct (queue_start_ready w q Q pm Hr)
    as (w1 & pm1 & E1 & E2 & E3 & E4 & E5 & E6 & E7).
  destruct (deliver_run w q Q pm w1 pm1 n Hr E2 E3 E4 E5 sigs 0 w1 eq_refl eq_refl E6)
    as (wN & F1 & F2 & F3).
  exists w1, wN. split; [exact E1 |]. split; [exact F1 |].
  split; [exact E7 |]. split; [exact F3 |].
  rewrite F3, E7, !joins_app, joins_start_requests, (joins_run_log w q Q pm sigs Hr 0).
  cbn [Nat.add].
  destruct (Nat.eqb_spec (length (transitions Q)) 0) as [HK|HK].
  - rewrite HK. cbn [joins Nat.ltb Nat.leb andb]. rewrite Nat.eqb_refl. lia.
  - destruct (Nat.ltb_spec 0 (length (transitions Q))); [| lia]. cbn [joins andb]. lia.
Qed.

(** A machine 0 with three handlers, two actions, and a queue 7 that
    joins them into 'done'; the second spec declares an error target. *)
Definition two_specs : list spec :=
  [Spec (Some 1) None None None; Spec (Some 2) None (Some "error") None].

Definition queue_world : world :=
  World (actions (addState 0 "done" (HFunction 12)
                    (addState 0 "error" (HFunction 11)
                       (addState 0 "success" (HFunction 10)
                          (create 2 (create 1 (create 0 (World ∅ ∅ ∅ ∅ []))))))))
        {[7 := TQueue 0 "done" two_specs false]} ∅ ∅ [].

Definition queue_machine : action :=
  Action [] [LGuard] [] []
    (<["done" := HFunction 12]>
       (<["error" := HFunction 11]> (<["success" := HFunction 10]> ∅))).

Lemma ready_queue_world :
  ready queue_world 7 (TQueue 0 "done" two_specs false) queue_machine.
Proof.
  constructor.
  - reflexivity.
  - reflexivity.
  - exists 12. reflexivity.
  - apply (bool_decide_unpack _). vm_compute. exact I.
  - apply Forall_cons; split; [| apply Forall_cons; split; [| constructor]].
    + exists 1, (Action [] [LGuard] [] [] ∅), [].
      repeat split; try reflexivity; try (intros H; discriminate H);
        [exists 10 | exists 11]; reflexivity.
    + exists 2, (Action [] [LGuard] [] [] ∅), [].
      repeat split; try reflexivity; try (intros H; discriminate H);
        [exists 10 | exists 11]; reflexivity.
Qed.

Lemma parallel_queue_joins_once_witness :
  exists w1 wN,
    queue_start 7 queue_world = Ok w1 /\
    deliver 1 two_specs
      [Signal 1 false [VStr "x"]; Signal 0 false [VNum 3]; Signal 0 true []] w1 = Ok wN /\
    joins 7 (log wN) = 1.
Proof.
  destruct (parallel_queue_joins_once queue_world 7 (TQueue 0 "done" two_specs false)
              queue_machine
              [Signal 1 false [VStr "x"]; Signal 0 false [VNum 3]; Signal 0 true []]
              0 ready_queue_world)
    as (w1 & wN & E1 & E2 & _ & _ & E5).
  exists w1, wN. split; [exact E1 |]. split; [exact E2 | exact E5].
Defined.

(** ** Registration of states *)

Definition already_defined (st : string) : string :=
  String.append "Warning: a handler for " (String.append st " has already been defined.").

Lemma addState_keeps_first m st l h a w :
  actions w !! m = Some a -> handlers a !! st = Some (HFunction l) ->
  addState m st h w = observe (Warned (already_defined st)) w.
Proof. intros Ha Hh. unfold addState. now rewrite Ha, Hh. Qed.

Lemma addState_registers m st h a w :
  actions w !! m = Some a -> handlers a !! st = None ->
  exists a', actions (addState m st h w) !! m = Some a' /\ handlers a' !! st = Some h.
Proof.
  intros Ha Hh. unfold addState. rewrite Ha, Hh. unfold update_action. cbn [actions].
  rewrite lookup_alter_eq, Ha. eexists. split; [reflexivity |].
  cbn [set_handler handlers]. apply lookup_insert_eq.
Qed.

End Core.

(** * Registering a state name twice *)

(** C9, as stated, fails for the sequencer: its [addState] assigns without
    looking, so the second registration replaces the handler, and nothing
    is logged. *)
Lemma sequencer_addState_replaces_counterexample :
  let m1 := Sequencer.addState "work" (Sequencer.FFunction (Sequencer.User (Sequencer.observer 1)))
              Sequencer.new_machine in
  let m2 := Sequencer.addState "work" (Sequencer.FFunction (Sequencer.User (Sequencer.observer 2)))
              m1 in
  Sequencer.handlers m1 !! "work" =
    Some (Sequencer.FFunction (Sequencer.User (Sequencer.observer 1))) /\
  Sequencer.handlers m2 !! "work" =
    Some (Sequencer.FFunction (Sequencer.User (Sequencer.observer 2))) /\
  Sequencer.handlers m2 !! "work" <> Sequencer.handlers m1 !! "work" /\
  Sequencer.trace m2 = [].
Proof.
  cbv zeta. split; [reflexivity |]. split; [reflexivity |]. split; [| reflexivity].
  intros H. vm_compute in H. congruence.
Qed.

(** C9, amended: in the StateMachine, registering a name that already has
    a handler function is rejected: a warning is logged, the new handler
    is ignored and the registered one stays; in the sequencer machine the
    second registration silently replaces the first. *)
Theorem addState_second_registration m st l h a w name f1 f2 sm :
  Core.actions w !! m = Some a ->
  Core.handlers a !! st = Some (Core.HFunction l) ->
  (Core.actions (Core.addState m st h w) = Core.actions w /\
   Core.log (Core.addState m st h w) =
     Core.log w ++ [Core.Warned (Core.already_defined st)]) /\
  (Sequencer.handlers (Sequencer.addState name f2 (Sequencer.addState name f1 sm)) !! name
     = Some f2 /\
   Sequencer.trace (Sequencer.addState name f2 (Sequencer.addState name f1 sm))
     = Sequencer.trace sm).
Proof.
  intros Ha Hh. split.
  - rewrite (Core.addState_keeps_first m st l h a w Ha Hh). split; reflexivity.
  - apply Sequencer.addState_replaces.
Qed.

Lemma addState_second_registration_witness :
  Core.actions (Core.addState 0 "error" (Core.HFunction 6) Core.machine_and_action) =
    Core.actions Core.machine_and_action /\
  Core.log (Core.addState 0 "error" (Core.HFunction 6) Core.machine_and_action) =
    [Core.Warned "Warning: a handler for error has already been defined."].
Proof.
  exact (proj1 (addState_second_registration 0 "error" 5 (Core.HFunction 6)
                  (Core.Action [] [Core.LGuard] [] [] {["error" := Core.HFunction 5]})
                  Core.machine_and_action "work" Sequencer.FUndefined Sequencer.FUndefined
                  Sequencer.new_machine eq_refl eq_refl)).
Defined.

(** * Further properties of the sequencer *)

Module SequencerFacts.

Import Sequencer.

(** ** Declaring steps *)

(** The decimal numeral of [n], as in ["state" + n]. *)
Definition decimal (n : nat) : string := NilEmpty.string_of_uint (Nat.to_uint n).

Definition auto_name (n : nat) : string := String.append "state" (decimal n).

(** [next]: an unnamed state at the next position in the main sequence. *)
Definition next (f : funcOrAct) (m : machine) : machine :=
  nextState (auto_name (length (stateSequence m))) f m.

(** A machine built by successive calls of [next] on plain functions. *)
Definition build (fs : list userfn) (m : machine) : machine :=
  fold_left (fun acc f => next (FFunction (User f)) acc) fs m.

Fixpoint auto_steps (k : nat) (fs : list userfn) : list (string * userfn) :=
  match fs with
  | [] => []
  | f :: rest => (auto_name k, f) :: auto_steps (S k) rest
  end.

Lemma decimal_inj n k : decimal n = decimal k -> n = k.
Proof.
  unfold decimal. intros H.
  apply (f_equal NilEmpty.uint_of_string) in H. rewrite !NilEmpty.usu in H.
  injection H as H. apply (f_equal Nat.of_uint) in H.
  now rewrite !Unsigned.of_to in H.
Qed.

Lemma auto_name_inj n k : auto_name n = auto_name k -> n = k.
Proof. unfold auto_name. simpl. intros [= H]. now apply decimal_inj. Qed.

Lemma auto_steps_names k fs n :
  n ∈ (auto_steps k fs).*1 -> exists i, k <= i /\ n = auto_name i.
Proof.
  revert k. induction fs as [|f fs IH]; intros k Hin; simpl in Hin.
  - now apply elem_of_nil in Hin.
  - apply elem_of_cons in Hin as [-> | Hin]; [exists k; auto |].
    destruct (IH (S k) Hin) as (i & Hi & ->). exists i. split; [lia | reflexivity].
Qed.

Lemma auto_steps_NoDup k fs : NoDup (auto_steps k fs).*1.
Proof.
  revert k. induction fs as [|f fs IH]; intros k; simpl; constructor.
  - intros Hin. destruct (auto_steps_names _ _ _ Hin) as (i & Hi & E).
    apply auto_name_inj in E. lia.
  - apply IH.
Qed.

Lemma auto_steps_not_reserved k fs :
  ("complete" ∉ (auto_steps k fs).*1) /\ ("error" ∉ (auto_steps k fs).*1).
Proof.
  split; intros Hin; destruct (auto_steps_names _ _ _ Hin) as (i & _ & E);
    unfold auto_name in E; simpl in E; discriminate E.
Qed.

Lemma declare_fields steps : forall m,
  stateSequence (declare steps m) = stateSequence m ++ steps.*1 /\
  stateIndex (declare steps m) = stateIndex m /\
  state (declare steps m) = state m /\
  running (declare steps m) = running m /\
  transitioning (declare steps m) = transitioning m /\
  completeHandler (declare steps m) = completeHandler m /\
  errorHandler (declare steps m) = errorHandler m /\
  exitHandler (declare steps m) = exitHandler m /\
  trace (declare steps m) = trace m.
Proof.
  induction steps as [|[n f] steps IH]; intros m.
  - simpl. rewrite app_nil_r. repeat split.
  - change (declare ((n, f) :: steps) m)
      with (declare steps (nextState n (FFunction (User f)) m)).
    destruct (IH (nextState n (FFunction (User f)) m))
      as (E1 & E2 & E3 & E4 & E5 & E6 & E7 & E8 & E9).
    rewrite E1, E2, E3, E4, E5, E6, E7, E8, E9. simpl.
    rewrite <- app_assoc. repeat split.
Qed.

Lemma declare_lookup_other steps : forall m n,
  n ∉ steps.*1 -> handlers (declare steps m) !! n = handlers m !! n.
Proof.
  induction steps as [|[n0 f] steps IH]; intros m n Hn; [reflexivity |].
  change (declare ((n0, f) :: steps) m)
    with (declare steps (nextState n0 (FFunction (User f)) m)).
  simpl in Hn. apply not_elem_of_cons in Hn as [Hne Hn].
  rewrite IH by exact Hn. simpl. now rewrite lookup_insert_ne.
Qed.

Lemma declare_lookup steps : forall m,
  NoDup steps.*1 ->
  Forall (fun s => handlers (declare steps m) !! s.1 = Some (FFunction (User s.2))) steps.
Proof.
  induction steps as [|[n f] steps IH]; intros m Hnd; [constructor |].
  change (declare ((n, f) :: steps) m)
    with (declare steps (nextState n (FFunction (User f)) m)).
  simpl in Hnd. apply NoDup_cons in Hnd as [Hn Hnd]. constructor.
  - simpl. rewrite declare_lookup_other by exact Hn. simpl. apply lookup_insert_eq.
  - now apply IH.
Qed.

Lemma declare_declared steps m :
  stateSequence m = [] ->
  handlers m !! "complete" = Some (FFunction CompleteFn) ->
  handlers m !! "error" = Some (FFunction ErrorFn) ->
  NoDup steps.*1 -> "complete" ∉ steps.*1 -> "error" ∉ steps.*1 ->
  declared (declare steps m) steps.
Proof.
  intros Hs Hc He Hnd Hnc Hne. constructor; try assumption.
  - destruct (declare_fields steps m) as (E & _). now rewrite E, Hs.
  - now apply declare_lookup.
  - now rewrite declare_lookup_other.
  - now rewrite declare_lookup_other.
Qed.

Lemma build_declare fs : forall m,
  build fs m = declare (auto_steps (length (stateSequence m)) fs) m.
Proof.
  induction fs as [|f fs IH]; intros m; [reflexivity |].
  change (build (f :: fs) m) with (build fs (next (FFunction (User f)) m)).
  rewrite IH. unfold next at 2. simpl stateSequence.
  rewrite length_app. simpl length. rewrite Nat.add_1_r. reflexivity.
Qed.

(** X1: a machine built from a new one by calls of [next] holds its steps
    under the names state0, state1, ... in order of declaration: the
    names are distinct and not reserved, each names the function declared
    at its position, and the terminal states keep the functions of the
    constructor; nothing else of the machine has changed. *)
Theorem next_builds_declared fs :
  declared (build fs new_machine) (auto_steps 0 fs) /\
  stateIndex (build fs new_machine) = (-1)%Z /\
  state (build fs new_machine) = None /\
  running (build fs new_machine) = false /\
  transitioning (build fs new_machine) = false /\
  trace (build fs new_machine) = [].
Proof.
  rewrite build_declare. change (length (stateSequence new_machine)) with 0.
  destruct (auto_steps_not_reserved 0 fs) as [Hc He].
  split.
  - apply declare_declared; try reflexivity; auto using auto_steps_NoDup.
  - destruct (declare_fields (auto_steps 0 fs) new_machine)
      as (_ & E2 & E3 & E4 & E5 & _ & _ & _ & E9).
    rewrite E2, E3, E4, E5, E9. repeat split.
Qed.

(** ** Jumps *)


(** Where a jump lands: the target as [findState] names it, the index
    updated when the name is in the main sequence. *)
Definition entered (n : nameOrIndex) (m : machine) : machine :=
  let m1 := set_state (findState n m) m in
  let index := indexOf (stateSequence m1) (state m1) in
  if (index =? -1)%Z then m1 else set_stateIndex index m1.

Lemma entered_fields n m :
  handlers (entered n m) = handlers m /\
  stateSequence (entered n m) = stateSequence m /\
  state (entered n m) = findState n m /\
  running (entered n m) = running m /\
  transitioning (entered n m) = transitioning m /\
  completeHandler (entered n m) = completeHandler m /\
  errorHandler (entered n m) = errorHandler m /\
  exitHandler (entered n m) = exitHandler m /\
  wired (entered n m) = wired m /\
  trace (entered n m) = trace m /\
  listeners (entered n m) = listeners m.
Proof. unfold entered. cbv zeta. destruct (_ =? _)%Z; repeat split. Qed.

Lemma enter_error rev k args m :
  handlers m !! "error" = Some (FFunction ErrorFn) ->
  concludes m Error (errorHandler m) args -> exit_quiet m ->
  exists m',
    runState (go rev (S k)) (Name "error") args m = Ok m' /\
    trace m' = trace m ++ terminal_obs (errorHandler m) (exitHandler m) Error args /\
    state m' = Some "error" /\ running m' = false.
Proof.
  intros Hh Hc Hq. change (runState (go rev (S k)) (Name "error") args m)
    with (go rev (S k) args (entered (Name "error") m)).
  destruct (entered_fields (Name "error") m)
    as (E1 & E2 & E3 & E4 & E5 & E6 & E7 & E8 & E9 & E10 & E11).
  destruct (error_phase rev k args (entered (Name "error") m))
    as (m' & F1 & F2 & F3 & F4).
  - now rewrite E1.
  - exact E3.
  - rewrite E7. eapply concludes_ext; [exact E11 | exact Hc].
  - unfold exit_quiet. now rewrite E8.
  - exists m'. rewrite F2, E7, E8, E10. auto.
Qed.



(** X3: a jump to a target that has no handler, a name never registered
    (and not one every object inherits, which a lookup would find) or an
    index outside the main sequence, does not escape when the machine's
    'error' has a listener: the TypeError of the call is logged and the
    machine enters 'error' with it. *)
Theorem jump_to_missing_handler rev k n m :
  handlers m !! key_of (findState n m) = None ->
  inherited (key_of (findState n m)) = false ->
  handlers m !! "error" = Some (FFunction ErrorFn) ->
  concludes m Error (errorHandler m) [type_error_no_handler] -> exit_quiet m ->
  exists m',
    toState rev (go rev (S (S k))) n [] m = Ok m' /\
    trace m' = trace m ++ log_of type_error_no_handler ++
      terminal_obs (errorHandler m) (exitHandler m) Error [type_error_no_handler] /\
    state m' = Some "error" /\ running m' = false.
Proof.
  intros Hn _ Hh Hc Hq. rewrite toState_no_args.
  assert (E : runState (go rev (S (S k))) (of_state (findState n m)) [] m =
              go rev (S (S k)) [] (entered n m)).
  { unfold runState, entered. destruct n as [s|i|]; try reflexivity.
    simpl findState. destruct (seq_at (stateSequence m) i); reflexivity. }
  rewrite E. clear E.
  destruct (entered_fields n m) as (E1 & E2 & E3 & E4 & E5 & E6 & E7 & E8 & E9 & E10 & E11).
  change (go rev (S (S k)) [] (entered n m))
    with (go_body rev (go rev (S k)) [] (entered n m)).
  unfold go_body. rewrite E1, E3, Hn.
  unfold go_catch. cbn [stack_of type_error_no_handler truthy_str String.eqb Ascii.eqb
                        Bool.eqb negb].
  assert (Hne : state_is "error" (observe
            (Logged "TypeError: Cannot call method 'apply' of undefined at go")
            (entered n m)) = false).
  { unfold state_is. cbn [observe state]. rewrite E3.
    destruct (findState n m) as [s|] eqn:Hs; [| reflexivity].
    destruct (String.eqb_spec s "error") as [->|]; [| reflexivity].
    simpl in Hn. congruence. }
  rewrite Hne. unfold toError. rewrite toState_payload by reflexivity.
  destruct (enter_error rev k [type_error_no_handler]
              (observe (Logged "TypeError: Cannot call method 'apply' of undefined at go")
                 (entered n m))) as (m' & F1 & F2 & F3 & F4).
  - cbn [observe handlers]. now rewrite E1.
  - cbn [observe errorHandler]. rewrite E7.
    eapply concludes_ext; [| exact Hc]. cbn [observe listeners]. exact E11.
  - unfold exit_quiet. cbn [observe exitHandler]. now rewrite E8.
  - exists m'. split; [exact F1 |]. split; [| auto].
    rewrite F2. cbn [observe trace errorHandler exitHandler]. rewrite E7, E8, E10.
    now rewrite <- app_assoc.
Qed.

Lemma jump_to_missing_handler_witness :
  exists m',
    toState Rev2 (go Rev2 2) (Index 7) []
      (start (addListener Error (declare three_steps new_machine))) = Ok m' /\
    trace m' = [] ++ log_of type_error_no_handler ++
               [] ++ [Emitted Error [type_error_no_handler]] /\
    state m' = Some "error" /\ running m' = false.
Proof.
  apply (jump_to_missing_handler Rev2 0 (Index 7)
           (start (addListener Error (declare three_steps new_machine)))).
  - reflexivity.
  - reflexivity.
  - reflexivity.
  - reflexivity.
  - exact I.
Defined.

(** ** Exceptions that [go] does not absorb *)

(** X4: a handler that throws [undefined] or [null] makes [go] itself
    throw: the catch block reads [e.stack] first, which raises a
    TypeError; the machine stays in the state of the handler and nothing
    is emitted. *)
Theorem nullish_throw_escapes rev k args m f e :
  handlers m !! key_of (state m) = Some (FFunction (User f)) ->
  body f args = [CallThrow e] -> nullish e = true ->
  go rev (S k) args m = Throw type_error_stack (observe (Called (label f) args) m).
Proof.
  intros Hh Hb He.
  rewrite (go_catches rev k args m (FFunction (User f)) e
             (observe (Called (label f) args) m) Hh).
  - unfold go_catch. destruct e; try discriminate; reflexivity.
  - unfold makeHandler, apply_fn, apply_user. now rewrite Hb.
Qed.

Lemma nullish_throw_escapes_witness :
  go Rev2 3 []
    (set_state (Some "state0")
       (start (declare [("state0", thrower 4 VUndefined)] new_machine))) =
  Throw type_error_stack
    (observe (Called 4 [])
       (set_state (Some "state0")
          (start (declare [("state0", thrower 4 VUndefined)] new_machine)))).
Proof.
  apply (nullish_throw_escapes Rev2 2 []
           (set_state (Some "state0")
              (start (declare [("state0", thrower 4 VUndefined)] new_machine)))
           (thrower 4 VUndefined) VUndefined).
  - reflexivity.
  - reflexivity.
  - reflexivity.
Defined.

(** ** Repeating a state in the first revision *)

(** X5: in the revision of [src/noblemachine.js], [toRepeat] names a
    variable that is not in scope: a step that calls it does not repeat;
    the ReferenceError is caught by [go], logged, and, the machine's
    'error' having a listener, the machine enters 'error' with it. *)
Theorem toRepeat_fails_in_first_revision k args rargs m n f :
  state m = Some n -> n <> "error" ->
  handlers m !! n = Some (FFunction (User f)) ->
  body f args = [CallToRepeat rargs] ->
  handlers m !! "error" = Some (FFunction ErrorFn) ->
  "error" ∉ stateSequence m ->
  concludes m Error (errorHandler m) [reference_error_me] -> exit_quiet m ->
  exists m',
    go Rev1 (S (S k)) args m = Ok m' /\
    trace m' = trace m ++ Called (label f) args :: log_of reference_error_me ++
      terminal_obs (errorHandler m) (exitHandler m) Error [reference_error_me] /\
    state m' = Some "error" /\ running m' = false.
Proof.
  intros Hs Hne Hh Hb He Hseq Hc Hq.
  rewrite (go_catches Rev1 (S k) args m (FFunction (User f)) reference_error_me
             (observe (Called (label f) args) m)).
  - destruct (catch_to_error Rev1 k reference_error_me (observe (Called (label f) args) m))
      as (m' & E1 & E2 & E3 & E4); try assumption; try reflexivity.
    + eapply state_is_other; [exact Hs | exact Hne].
    + now apply index_from_absent.
    + exists m'. split; [exact E1 |]. split; [| auto]. rewrite E2.
      cbn [observe trace errorHandler exitHandler]. now rewrite app_cons_assoc.
  - now rewrite Hs.
  - unfold makeHandler, apply_fn, apply_user. now rewrite Hb.
Qed.

Definition repeater : userfn := UserFn 3 (fun _ => [CallToRepeat []]) false.

Lemma toRepeat_fails_in_first_revision_witness :
  exists m',
    go Rev1 2 []
      (set_state (Some "state0")
         (start (addListener Error (declare [("state0", repeater)] new_machine)))) = Ok m' /\
    trace m' = [] ++ Called 3 [] :: log_of reference_error_me ++
               [] ++ [Emitted Error [reference_error_me]] /\
    state m' = Some "error" /\ running m' = false.
Proof.
  apply (toRepeat_fails_in_first_revision 0 [] []
           (set_state (Some "state0")
              (start (addListener Error (declare [("state0", repeater)] new_machine))))
           "state0" repeater).
  - reflexivity.
  - discriminate.
  - reflexivity.
  - reflexivity.
  - reflexivity.
  - apply (bool_decide_unpack _). vm_compute. exact I.
  - reflexivity.
  - exact I.
Defined.


(** ** Arguments of a jump *)

(** What a jump hands to the target: the first revision keeps the first
    argument only. *)
Definition passed (rev : revision) (args : list value) : list value :=
  match rev with
  | Rev1 => firstn 1 args
  | Rev2 => args
  end.

Lemma toState_passes rev gr n v more m :
  startable v = false -> v <> VUndefined ->
  toState rev gr n (v :: more) m =
  runState gr (of_state (findState n m)) (passed rev (v :: more)) m.
Proof.
  intros Hs Hu. unfold toState, passed. destruct rev.
  - destruct v; try discriminate; try reflexivity. congruence.
  - now rewrite Hs.
Qed.

(** X6: [toNext] at the last step goes to 'complete', never out of
    range, and the value it is given becomes the payload of the success:
    all the arguments in the second revision, the first one only in the
    first. *)
Theorem toNext_at_last_step rev k v more m :
  (Z.of_nat (length (stateSequence m)) <= stateIndex m + 1)%Z ->
  startable v = false -> v <> VUndefined ->
  "complete" ∉ stateSequence m ->
  handlers m !! "complete" = Some (FFunction CompleteFn) ->
  running m = true ->
  concludes m Success (completeHandler m) (passed rev (v :: more)) -> exit_quiet m ->
  exists m',
    toNext rev (go rev (S k)) (v :: more) m = Ok m' /\
    trace m' = trace m ++
      terminal_obs (completeHandler m) (exitHandler m) Success (passed rev (v :: more)) /\
    state m' = Some "complete" /\ running m' = false.
Proof.
  intros Hi Hs Hu Hseq Hh Hr Hc Hq. unfold toNext.
  destruct (Z.ltb_spec (stateIndex m + 1) (Z.of_nat (length (stateSequence m)))); [lia |].
  unfold toComplete. rewrite toState_passes by assumption.
  cbn [findState of_state]. rewrite runState_name. cbv zeta.
  rewrite (index_from_absent _ _ _ Hseq). cbn [Z.eqb Pos.eqb].
  destruct (complete_phase rev k (passed rev (v :: more)) (set_state (Some "complete") m))
    as (m' & E1 & E2 & E3 & E4); try assumption; try reflexivity.
  exists m'. auto.
Qed.

Lemma toNext_at_last_step_witness :
  exists m',
    toNext Rev1 (go Rev1 1) [VNum 1; VNum 2] (start new_machine) = Ok m' /\
    trace m' = [] ++ [] ++ [Emitted Success [VNum 1]] /\
    state m' = Some "complete" /\ running m' = false.
Proof.
  apply (toNext_at_last_step Rev1 0 (VNum 1) [VNum 2] (start new_machine)).
  - simpl. lia.
  - reflexivity.
  - discriminate.
  - apply not_elem_of_nil.
  - reflexivity.
  - reflexivity.
  - exact I.
  - exact I.
Defined.

(** ** Terminal handlers that do not conclude *)

Lemma toNext_past_end rev gr m :
  (Z.of_nat (length (stateSequence m)) <= stateIndex m + 1)%Z ->
  "complete" ∉ stateSequence m ->
  toNext rev gr [] m = gr [] (set_state (Some "complete") m).
Proof.
  intros Hi Hc. unfold toNext.
  destruct (Z.ltb_spec (stateIndex m + 1) (Z.of_nat (length (stateSequence m)))); [lia |].
  unfold toComplete. rewrite toState_no_args. unfold findState, of_state.
  rewrite runState_name. cbv zeta. now rewrite (index_from_absent _ _ _ Hc).
Qed.

(** X7: a completion handler that returns without emitting leaves the
    machine running in 'complete' with nothing to wait for, so the
    handler of 'complete' advances, into 'complete' again: every entry of
    the state applies the completion handler and the exit hook and then
    runs [go] once more with no arguments, on a machine that differs from
    the one entered by its trace only, so that the next entry does the
    same. *)
Theorem silent_completion_reenters rev go_rec h args m :
  completeHandler m = Some h -> body h args = [] -> exit_quiet m ->
  "complete" ∉ stateSequence m ->
  (Z.of_nat (length (stateSequence m)) <= stateIndex m + 1)%Z ->
  state m = Some "complete" -> running m = true -> transitioning m = false ->
  exists m',
    makeHandler rev go_rec (FFunction CompleteFn) args m = go_rec [] m' /\
    trace m' = trace m ++ Called (label h) args :: exit_obs (exitHandler m) /\
    handlers m' = handlers m /\ stateSequence m' = stateSequence m /\
    stateIndex m' = stateIndex m /\ state m' = Some "complete" /\
    running m' = true /\ transitioning m' = false /\
    completeHandler m' = Some h /\ errorHandler m' = errorHandler m /\
    exitHandler m' = exitHandler m /\ listeners m' = listeners m.
Proof.
  intros Hc Hb Hq Hseq Hi Hs Hr Ht.
  unfold makeHandler, apply_fn, complete_fn, onExit, apply_user. rewrite Hc, Hb.
  cbn [exec_script bind observe exitHandler].
  set (m1 := observe (Called (label h) args) m).
  assert (E : exists m2,
             match exitHandler m with
             | Some h0 => exec_script rev go_rec (body h0 []) (observe (Called (label h0) []) m1)
             | None => Ok m1
             end = Ok m2 /\
             trace m2 = trace m ++ Called (label h) args :: exit_obs (exitHandler m) /\
             handlers m2 = handlers m /\ stateSequence m2 = stateSequence m /\
             stateIndex m2 = stateIndex m /\ state m2 = state m /\
             running m2 = running m /\ transitioning m2 = transitioning m /\
             completeHandler m2 = completeHandler m /\ errorHandler m2 = errorHandler m /\
             exitHandler m2 = exitHandler m /\ listeners m2 = listeners m).
  { unfold exit_quiet in Hq. destruct (exitHandler m) as [x|] eqn:Hx.
    - rewrite Hq. eexists. split; [reflexivity |]. subst m1. cbn.
      rewrite Hx, <- app_assoc. repeat split.
    - eexists. split; [reflexivity |]. subst m1. cbn. rewrite Hx. repeat split. }
  destruct E as (m2 & E0 & Et & E1 & E2 & E3 & E4 & E5 & E6 & E7 & E8 & E9 & E10).
  rewrite E0. cbn [bind]. rewrite E7, Hc.
  replace (_ && negb (bool_decide (is_Some (Some h)))) with false
    by (now rewrite andb_false_r).
  cbn [bind]. rewrite idle_true; [| reflexivity | congruence | congruence | congruence].
  rewrite toNext_past_end; [| rewrite E2, E3; lia | now rewrite E2].
  exists (set_state (Some "complete") m2). split; [reflexivity |].
  cbn [set_state trace handlers stateSequence stateIndex state running transitioning
       completeHandler errorHandler exitHandler listeners].
  repeat split; congruence.
Qed.

Definition silent_complete : machine :=
  set_state (Some "complete") (start (complete (observer 6) new_machine)).

Lemma silent_completion_reenters_witness :
  exists m',
    makeHandler Rev2 (go Rev2 3) (FFunction CompleteFn) [] silent_complete =
      go Rev2 3 [] m' /\
    trace m' = [] ++ [Called 6 []] /\ state m' = Some "complete" /\ running m' = true.
Proof.
  destruct (silent_completion_reenters Rev2 (go Rev2 3) (observer 6) [] silent_complete)
    as (m' & E1 & E2 & _ & _ & _ & E6 & E7 & _);
    [reflexivity | reflexivity | exact I | apply not_elem_of_nil | simpl; lia
    | reflexivity | reflexivity | reflexivity |].
  exists m'. auto.
Defined.

(** ** Resuming the sequence *)

Lemma declared_handler m pre n f rest :
  declared m (pre ++ (n, f) :: rest) ->
  handlers m !! n = Some (FFunction (User f)) /\ (n ∉ pre.*1) /\
  n <> "complete" /\ n <> "error" /\
  stateSequence m = pre.*1 ++ n :: rest.*1.
Proof.
  intros [H1 H2 H3 H4 H5 H6 H7].
  rewrite fmap_app, fmap_cons in H1, H2, H3, H4. cbn [fst] in H1, H2, H3, H4.
  apply Forall_app in H5 as [_ H5]. apply Forall_cons in H5 as [Hf _].
  apply NoDup_app in H2 as (_ & Hfresh & _).
  split; [exact Hf |]. split; [intros Hin; apply (Hfresh n Hin); left |].
  split; [intros ->; apply H3; apply elem_of_app; right; left |].
  split; [intros ->; apply H4; apply elem_of_app; right; left | exact H1].
Qed.

(** A step entered with some arguments on which it returns at once, and
    the run that follows. *)
Lemma step_then_chain rev k pre n f rest args m :
  declared m (pre ++ (n, f) :: rest) ->
  state m = Some n -> stateIndex m = Z.of_nat (length pre) ->
  running m = true -> transitioning m = false ->
  wait f = false -> body f args = [] ->
  concludes m Success (completeHandler m) [] -> exit_quiet m -> Forall (plain_step m) rest ->
  exists m',
    go rev (S (length rest + S k)) args m = Ok m' /\
    trace m' = trace m ++ Called (label f) args :: expected m rest /\
    state m' = Some (outcome rest) /\ running m' = false.
Proof.
  intros Hd Hs Hi Hr Ht Hw Hb Hc Hq Hp.
  destruct (declared_handler m pre n f rest Hd) as (Hf & _).
  set (m3 := observe (Called (label f) args) m).
  destruct (chain rev k rest (pre ++ [(n, f)]) m3) as (m' & E1 & E2 & E3 & E4); auto.
  { rewrite <- app_assoc. eapply declared_ext; [| | exact Hd]; reflexivity. }
  { subst m3. cbn. rewrite Hi, length_app. cbn. lia. }
  exists m'. split.
  - eapply go_returns; [rewrite Hs; exact Hf |].
    unfold makeHandler, apply_fn, apply_user. rewrite Hb. cbn [exec_script bind].
    fold m3. rewrite idle_true by auto. exact E1.
  - split; [| auto]. rewrite E2. subst m3. cbn [trace observe].
    rewrite app_cons_assoc. f_equal. f_equal. now apply expected_ext.
Qed.

(** X8: an error handler that returns without emitting does not end the
    machine: after the exit hook, the handler of 'error' finds the
    machine idle and advances, so the sequence resumes at the step after
    the one that threw, and the exit hook runs again at the end. *)
Theorem silent_error_handler_resumes rev k pre n f rest e h m :
  declared m (pre ++ (n, f) :: rest) ->
  stateIndex m = (Z.of_nat (length pre) - 1)%Z ->
  running m = true -> transitioning m = false ->
  body f [] = [CallThrow e] -> nullish e = false -> startable e = false ->
  errorHandler m = Some h -> body h [e] = [] ->
  concludes m Success (completeHandler m) [] -> exit_quiet m -> Forall returns rest ->
  exists m',
    toNext rev (go rev (S (S (length rest + S k)))) [] m = Ok m' /\
    trace m' = trace m ++ Called (label f) [] :: log_of e ++
               Called (label h) [e] :: exit_obs (exitHandler m) ++ expected m rest /\
    state m' = Some "complete" /\ running m' = false.
Proof.
  intros Hd Hi Hr Ht Hb Hnull Hstart He Hh Hc Hq Hrest.
  destruct (declared_handler m pre n f rest Hd) as (Hf & Hnp & _ & Hne & Hseq).
  pose proof Hd as [D1 _ D3 D4 _ D6 D7].
  rewrite (toNext_enters _ _ _ _ _ _ Hseq Hnp) by (now rewrite length_fmap).
  rewrite length_fmap.
  set (m2 := set_stateIndex _ _).
  set (m3 := observe (Called (label f) []) m2).
  erewrite go_catches; [| exact Hf |].
  2:{ unfold makeHandler, apply_fn, apply_user. rewrite Hb. reflexivity. }
  fold m3. rewrite go_catch_not_nullish by exact Hnull.
  rewrite (state_is_other n "error" m3 eq_refl Hne).
  unfold toError. rewrite toState_payload by assumption.
  cbn [findState of_state]. rewrite runState_name. cbv zeta.
  set (m4 := logged e m3).
  assert (F : handlers m4 = handlers m /\ stateSequence m4 = stateSequence m /\
              stateIndex m4 = Z.of_nat (length pre) /\ running m4 = true /\
              transitioning m4 = false /\ completeHandler m4 = completeHandler m /\
              errorHandler m4 = errorHandler m /\ exitHandler m4 = exitHandler m /\
              trace m4 = trace m ++ Called (label f) [] :: log_of e /\
              listeners m4 = listeners m).
  { subst m4 m3 m2. unfold logged, log_of.
    destruct (stack_of e) as [[s|]|]; [destruct (truthy_str s) | |]; cbn;
      rewrite ?app_nil_r, <- ?app_assoc; auto 12. }
  destruct F as (F1 & F2 & F3 & F4 & F5 & F6 & F7 & F8 & F9 & F10).
  rewrite F2, D1, (index_from_absent _ _ _ D4). cbn [Z.eqb Pos.eqb].
  set (m5 := set_state (Some "error") m4).
  set (m6 := observe (Called (label h) [e]) m5).
  set (m7 := match exitHandler m with
             | Some x => observe (Called (label x) []) m6
             | None => m6
             end).
  assert (G : handlers m7 = handlers m /\ stateSequence m7 = stateSequence m /\
              stateIndex m7 = Z.of_nat (length pre) /\ state m7 = Some "error" /\
              running m7 = true /\
              transitioning m7 = false /\ completeHandler m7 = completeHandler m /\
              errorHandler m7 = errorHandler m /\ exitHandler m7 = exitHandler m /\
              trace m7 = trace m ++ Called (label f) [] :: log_of e ++
                         Called (label h) [e] :: exit_obs (exitHandler m) /\
              listeners m7 = listeners m).
  { subst m7 m6 m5. destruct (exitHandler m) as [x|] eqn:Hx; cbn;
      rewrite F9, <- ?app_assoc; cbn [app]; rewrite <- ?app_assoc; auto 13. }
  destruct G as (G1 & G2 & G3 & G4 & G5 & G6 & G7 & G8 & G9 & G10 & G11).
  destruct (chain rev k rest (pre ++ [(n, f)]) m7) as (m' & E1 & E2 & E3 & E4).
  { rewrite <- app_assoc. eapply declared_ext; [exact G1 | exact G2 | exact Hd]. }
  { rewrite G3, length_app. cbn. lia. }
  { exact G5. }
  { exact G6. }
  { rewrite G7. eapply concludes_ext; [exact G11 | exact Hc]. }
  { unfold exit_quiet. now rewrite G9. }
  { now apply returns_plain. }
  destruct (expected_returns m7 rest Hrest) as [X1 X2].
  exists m'. split.
  - change (S (length rest + S k)) with (S (length rest + S k)).
    eapply go_returns.
    + subst m5. cbn [set_state handlers state key_of]. rewrite F1. exact D7.
    + unfold makeHandler, apply_fn, error_fn, onExit, apply_user.
      subst m5. cbn [set_state errorHandler exitHandler observe]. rewrite F7, He, Hh.
      cbn [exec_script bind observe exitHandler set_state]. rewrite F8.
      unfold exit_quiet in Hq.
      assert (Y : match exitHandler m with
                  | Some h0 => exec_script rev (go rev (length rest + S k)) (body h0 [])
                      (observe (Called (label h0) [])
                         (observe (Called (label h) [e]) (set_state (Some "error") m4)))
                  | None => Ok (observe (Called (label h) [e]) (set_state (Some "error") m4))
                  end = Ok m7).
      { subst m7 m6. destruct (exitHandler m); [rewrite Hq |]; reflexivity. }
      rewrite Y. cbn [bind]. rewrite G8, He. cbn [bool_decide negb bind].
      replace (negb (bool_decide (is_Some (Some h)))) with false by reflexivity.
      cbn [bind]. rewrite idle_true; [exact E1 | reflexivity | | exact G6 | exact G5].
      rewrite G4. reflexivity.
  - rewrite X2 in E3. split; [| auto]. rewrite E2, G10.
    rewrite (expected_ext m m7) by assumption.
    rewrite <- !app_assoc. cbn [app]. now rewrite <- !app_assoc.
Qed.

Definition fail_first : list (string * userfn) :=
  [("state0", thrower 11 (VStr "boom")); ("state1", observer 12)].

Definition shrugging : machine :=
  start (error (observer 7) (ensure (observer 9) (declare fail_first new_machine))).

Lemma declared_shrugging : declared shrugging fail_first.
Proof.
  constructor; try reflexivity; try (apply (bool_decide_unpack _); vm_compute; exact I).
  repeat constructor.
Qed.

Lemma silent_error_handler_resumes_witness :
  exists m',
    toNext Rev1 (go Rev1 4) [] shrugging = Ok m' /\
    trace m' = [] ++ Called 11 [] :: [] ++ Called 7 [VStr "boom"] :: [Called 9 []] ++
               [Called 12 []; Called 9 []; Emitted Success []] /\
    state m' = Some "complete" /\ running m' = false.
Proof.
  apply (silent_error_handler_resumes Rev1 0 [] "state0" (thrower 11 (VStr "boom"))
           [("state1", observer 12)] (VStr "boom") (observer 7) shrugging).
  - exact declared_shrugging.
  - reflexivity.
  - reflexivity.
  - reflexivity.
  - reflexivity.
  - reflexivity.
  - reflexivity.
  - reflexivity.
  - reflexivity.
  - exact I.
  - reflexivity.
  - repeat constructor.
Defined.

(** ** Detours through named states *)

(** X9: a step that jumps to a named state outside the main sequence
    does not lose its place: when that state calls [toNext] with a value,
    the step after the one that jumped runs with the value, and the run
    goes on from there to its end. *)
Theorem detour_resumes_sequence rev k pre n f x g n1 f1 rest v m :
  declared m (pre ++ (n, f) :: (n1, f1) :: rest) ->
  state m = Some n -> stateIndex m = Z.of_nat (length pre) ->
  running m = true -> transitioning m = false ->
  body f [] = [CallToState (Name x) []] ->
  handlers m !! x = Some (FFunction (User g)) -> x ∉ stateSequence m ->
  body g [] = [CallToNext [v]] -> startable v = false -> v <> VUndefined ->
  wait f1 = false -> body f1 [v] = [] ->
  concludes m Success (completeHandler m) [] -> exit_quiet m -> Forall (plain_step m) rest ->
  exists m',
    go rev (S (S (S (length rest + S k)))) [] m = Ok m' /\
    trace m' = trace m ++ Called (label f) [] :: Called (label g) [] ::
               Called (label f1) [v] :: expected m rest /\
    state m' = Some (outcome rest) /\ running m' = false.
Proof.
  intros Hd Hs Hi Hr Ht Hb Hx Hxs Hg Hv Hu Hw1 Hb1 Hc Hq Hp.
  destruct (declared_handler m pre n f ((n1, f1) :: rest) Hd) as (Hf & Hnp & _ & _ & Hseq).
  assert (Hd' : declared m ((pre ++ [(n, f)]) ++ (n1, f1) :: rest)).
  { now rewrite <- app_assoc. }
  destruct (declared_handler m (pre ++ [(n, f)]) n1 f1 rest Hd') as (Hf1 & Hnp1 & _ & _ & Hseq1).
  set (m1 := observe (Called (label f) []) m).
  set (m2 := set_state (Some x) m1).
  set (m3 := observe (Called (label g) []) m2).
  set (m4 := set_stateIndex (Z.of_nat (length (pre ++ [(n, f)]).*1)) (set_state (Some n1) m3)).
  destruct (step_then_chain rev k (pre ++ [(n, f)]) n1 f1 rest [v] m4)
    as (m' & E1 & E2 & E3 & E4); try assumption; try reflexivity.
  { eapply declared_ext; [| | exact Hd']; reflexivity. }
  { subst m4. cbn. now rewrite length_fmap. }
  assert (Hstep3 : toNext rev (go rev (S (length rest + S k))) [v] m3 = Ok m').
  { unfold toNext.
    assert (Hlt : (stateIndex m3 + 1 <? Z.of_nat (length (stateSequence m3)))%Z = true).
    { subst m3 m2 m1. cbn. rewrite Hi, Hseq1, length_app, length_fmap, length_app. cbn.
      apply Z.ltb_lt. lia. }
    rewrite Hlt. rewrite toState_passes by assumption.
    assert (Hfind : findState (Index (stateIndex m3 + 1)) m3 = Some n1).
    { subst m3 m2 m1. cbn. rewrite Hi, Hseq1.
      replace (Z.of_nat (length pre) + 1)%Z
        with (Z.of_nat (length ((pre ++ [(n, f)]).*1)))
        by (rewrite length_fmap, length_app; cbn; lia).
      apply seq_at_middle. }
    rewrite Hfind. cbn [of_state]. rewrite runState_name. cbv zeta.
    assert (Hidx : index_from (stateSequence m3) n1 0 =
                   Z.of_nat (length (pre ++ [(n, f)]).*1)).
    { subst m3 m2 m1. cbn [observe set_state stateSequence]. rewrite Hseq1.
      now rewrite index_from_app. }
    rewrite Hidx.
    destruct (Z.eqb_spec (Z.of_nat (length (pre ++ [(n, f)]).*1)) (-1)); [lia |].
    fold m4.
    assert (Hpass : passed rev [v] = [v]) by now destruct rev.
    rewrite Hpass. exact E1. }
  assert (Hstep2 : go rev (S (S (length rest + S k))) [] m2 = Ok m').
  { eapply go_returns; [subst m2 m1; cbn; exact Hx |].
    unfold makeHandler, apply_fn, apply_user. rewrite Hg. fold m3.
    cbn [exec_script exec_call]. rewrite Hstep3. cbn [bind].
    now rewrite idle_stopped. }
  exists m'. split.
  - eapply go_returns; [rewrite Hs; exact Hf |].
    unfold makeHandler, apply_fn, apply_user. rewrite Hb. fold m1.
    cbn [exec_script exec_call]. rewrite toState_no_args. cbn [findState of_state].
    rewrite runState_name. cbv zeta.
    assert (Hidx : index_from (stateSequence m1) x 0 = (-1)%Z).
    { subst m1. cbn. now apply index_from_absent. }
    rewrite Hidx. cbn [Z.eqb Pos.eqb]. fold m2. rewrite Hstep2. cbn [bind].
    now rewrite idle_stopped.
  - split; [| auto]. rewrite E2. subst m4 m3 m2 m1. cbn [trace observe set_state set_stateIndex].
    rewrite (expected_ext m) by reflexivity.
    rewrite <- !app_assoc. reflexivity.
Qed.

Definition jumper : userfn := UserFn 20 (fun _ => [CallToState (Name "bakecookie") []]) false.
Definition baker : userfn := UserFn 22 (fun _ => [CallToNext [VStr "cookie"]]) false.

Definition kitchen_steps : list (string * userfn) :=
  [("state0", jumper); ("state1", observer 21)].

Definition kitchen : machine :=
  set_stateIndex 0
    (set_state (Some "state0")
       (start (addState "bakecookie" (FFunction (User baker))
                 (declare kitchen_steps new_machine)))).

Lemma declared_kitchen : declared kitchen kitchen_steps.
Proof.
  constructor; try reflexivity; try (apply (bool_decide_unpack _); vm_compute; exact I).
  repeat constructor.
Qed.

Lemma detour_resumes_sequence_witness :
  exists m',
    go Rev2 4 [] kitchen = Ok m' /\
    trace m' = [] ++ Called 20 [] :: Called 22 [] :: Called 21 [VStr "cookie"] ::
               [Emitted Success []] /\
    state m' = Some "complete" /\ running m' = false.
Proof.
  apply (detour_resumes_sequence Rev2 0 [] "state0" jumper "bakecookie" baker
           "state1" (observer 21) [] (VStr "cookie") kitchen).
  - exact declared_kitchen.
  - reflexivity.
  - reflexivity.
  - reflexivity.
  - reflexivity.
  - reflexivity.
  - reflexivity.
  - apply (bool_decide_unpack _). vm_compute. exact I.
  - reflexivity.
  - reflexivity.
  - discriminate.
  - reflexivity.
  - reflexivity.
  - exact I.
  - exact I.
  - constructor.
Defined.

(** ** Chaining an action *)

(** X10: a step that hands an action to [toNext] suspends the machine:
    the action is wired to the next step and started, the step returns
    and nothing advances while the transition is pending.  When the
    action succeeds, the next step runs with its result and the run goes
    on; when it fails, the machine enters 'error' with the payload and,
    its 'error' having a listener, ends there. *)
Theorem action_step_chains rev k pre n f a n1 f1 rest m :
  declared m (pre ++ (n, f) :: (n1, f1) :: rest) ->
  state m = Some n -> stateIndex m = Z.of_nat (length pre) ->
  running m = true -> transitioning m = false ->
  body f [] = [CallToNext [VAction a]] -> n1 <> "" ->
  exists m1,
    go rev (S k) [] m = Ok m1 /\
    trace m1 = trace m ++ [Called (label f) []; Started a] /\
    state m1 = Some n /\ running m1 = true /\ transitioning m1 = true /\
    wired m1 = wired m ++ [Wiring a n1 "error" []] /\
    (forall j args,
       wait f1 = false -> body f1 args = [] ->
       concludes m Success (completeHandler m) [] -> exit_quiet m -> Forall (plain_step m) rest ->
       exists m',
         on_success (go rev (S (length rest + S j))) (Wiring a n1 "error" []) args m1 = Ok m' /\
         trace m' = trace m1 ++ Called (label f1) args :: expected m rest /\
         state m' = Some (outcome rest) /\ running m' = false) /\
    (forall j args,
       concludes m Error (errorHandler m) args -> exit_quiet m ->
       exists m',
         on_error (go rev (S j)) (Wiring a n1 "error" []) args m1 = Ok m' /\
         trace m' = trace m1 ++ terminal_obs (errorHandler m) (exitHandler m) Error args /\
         state m' = Some "error" /\ running m' = false).
Proof.
  intros Hd Hs Hi Hr Ht Hb Hn1.
  destruct (declared_handler m pre n f ((n1, f1) :: rest) Hd) as (Hf & Hnp & _ & _ & Hseq).
  assert (Hd' : declared m ((pre ++ [(n, f)]) ++ (n1, f1) :: rest)).
  { now rewrite <- app_assoc. }
  destruct (declared_handler m (pre ++ [(n, f)]) n1 f1 rest Hd') as (Hf1 & Hnp1 & _ & _ & Hseq1).
  pose proof Hd as [_ _ _ _ _ _ D7].
  set (m0 := observe (Called (label f) []) m).
  set (m1 := observe (Started a)
               (set_transitioning true (add_wiring (Wiring a n1 "error" []) m0))).
  assert (Hgo : go rev (S k) [] m = Ok m1).
  { eapply go_returns; [rewrite Hs; exact Hf |].
    unfold makeHandler, apply_fn, apply_user. rewrite Hb. fold m0.
    cbn [exec_script exec_call]. unfold toNext.
    assert (Hlt : (stateIndex m0 + 1 <? Z.of_nat (length (stateSequence m0)))%Z = true).
    { subst m0. cbn. rewrite Hi, Hseq1, length_app, length_fmap, length_app. cbn.
      apply Z.ltb_lt. lia. }
    rewrite Hlt.
    assert (Hfind : findState (Index (stateIndex m0 + 1)) m0 = Some n1).
    { subst m0. cbn. rewrite Hi, Hseq1.
      replace (Z.of_nat (length pre) + 1)%Z
        with (Z.of_nat (length ((pre ++ [(n, f)]).*1)))
        by (rewrite length_fmap, length_app; cbn; lia).
      apply seq_at_middle. }
    assert (Htr : toState rev (go rev k) (Index (stateIndex m0 + 1)) [VAction a] m0 = Ok m1).
    { unfold toState. rewrite Hfind. unfold transition.
      assert (Ht1 : truthy_str n1 = true).
      { unfold truthy_str. destruct (String.eqb_spec n1 ""); [contradiction | reflexivity]. }
      destruct rev; cbn [startable nullish o_action o_success o_error o_argdata or_default];
        rewrite Ht1; reflexivity. }
    rewrite Htr. cbn [bind].
    unfold idle. subst m1. cbn [observe set_transitioning transitioning negb].
    destruct rev; now rewrite !andb_false_r. }
  exists m1. split; [exact Hgo |].
  split; [subst m1 m0; cbn; now rewrite <- app_assoc |].
  split; [subst m1 m0; cbn; exact Hs |].
  split; [subst m1 m0; cbn; exact Hr |].
  split; [reflexivity |]. split; [reflexivity |]. split.
  - intros j args Hw1 Hb1 Hc Hq Hp. unfold on_success. cbn [w_success w_argdata app].
    rewrite runState_name. cbv zeta.
    assert (Hidx : index_from (stateSequence (set_transitioning false m1)) n1 0 =
                   Z.of_nat (length (pre ++ [(n, f)]).*1)).
    { subst m1 m0. cbn [observe set_transitioning add_wiring stateSequence]. rewrite Hseq1.
      now rewrite index_from_app. }
    rewrite Hidx.
    destruct (Z.eqb_spec (Z.of_nat (length (pre ++ [(n, f)]).*1)) (-1)); [lia |].
    set (m5 := set_stateIndex _ _).
    destruct (step_then_chain rev j (pre ++ [(n, f)]) n1 f1 rest args m5)
      as (m' & E1 & E2 & E3 & E4); try assumption; try reflexivity.
    { eapply declared_ext; [| | exact Hd']; reflexivity. }
    { subst m5. cbn. now rewrite length_fmap. }
    exists m'. split; [exact E1 |]. split; [| auto]. rewrite E2.
    subst m5. cbn [trace set_stateIndex set_state set_transitioning].
    now rewrite (expected_ext m) by reflexivity.
  - intros j args Hc Hq. unfold on_error. cbn [w_error].
    destruct (enter_error rev j args (set_transitioning false m1))
      as (m' & E1 & E2 & E3 & E4); try assumption.
    exists m'. auto.
Qed.

Definition asker : userfn := UserFn 30 (fun _ => [CallToNext [VAction 4]]) false.

Definition asking_steps : list (string * userfn) :=
  [("state0", asker); ("state1", observer 31)].

Definition asking : machine :=
  set_stateIndex 0 (set_state (Some "state0") (start (declare asking_steps new_machine))).

Lemma declared_asking : declared asking asking_steps.
Proof.
  constructor; try reflexivity; try (apply (bool_decide_unpack _); vm_compute; exact I).
  repeat constructor.
Qed.

Lemma action_step_chains_witness :
  exists m1 m',
    go Rev2 1 [] asking = Ok m1 /\
    trace m1 = [Called 30 []; Started 4] /\ transitioning m1 = true /\
    on_success (go Rev2 2) (Wiring 4 "state1" "error" []) [VStr "files"] m1 = Ok m' /\
    trace m' = trace m1 ++ [Called 31 [VStr "files"]; Emitted Success []].
Proof.
  destruct (action_step_chains Rev2 0 [] "state0" asker 4 "state1" (observer 31) [] asking
              declared_asking eq_refl eq_refl eq_refl eq_refl eq_refl)
    as (m1 & E1 & E2 & _ & _ & E5 & _ & E7 & _).
  { discriminate. }
  destruct (E7 0 [VStr "files"] eq_refl eq_refl I I (Forall_nil_2 _)) as (m' & F1 & F2 & _).
  exists m1, m'. split; [exact E1 |]. split; [exact E2 |]. split; [exact E5 |].
  split; [exact F1 | exact F2].
Defined.

(** ** Values handed over with an action *)

(** What [transition] keeps of the values that follow the action in a
    call of [toNext] or [toState]. *)
Definition kept (rev : revision) (extra : list value) : list value :=
  match rev with Rev1 => [] | Rev2 => extra end.

(** X11: values handed to [toNext] after an action are kept by the second
    revision, which puts them in front of the action's result when the
    next step runs, and dropped by the first, where the next step sees
    the result alone. *)
Theorem values_after_action rev k pre n f a extra n1 f1 rest m :
  declared m (pre ++ (n, f) :: (n1, f1) :: rest) ->
  state m = Some n -> stateIndex m = Z.of_nat (length pre) ->
  running m = true -> transitioning m = false ->
  body f [] = [CallToNext (VAction a :: extra)] -> n1 <> "" ->
  exists m1,
    go rev (S k) [] m = Ok m1 /\
    trace m1 = trace m ++ [Called (label f) []; Started a] /\
    wired m1 = wired m ++ [Wiring a n1 "error" (kept rev extra)] /\
    (forall j args,
       wait f1 = false -> body f1 (kept rev extra ++ args) = [] ->
       concludes m Success (completeHandler m) [] -> exit_quiet m -> Forall (plain_step m) rest ->
       exists m',
         on_success (go rev (S (length rest + S j)))
           (Wiring a n1 "error" (kept rev extra)) args m1 = Ok m' /\
         trace m' = trace m1 ++ Called (label f1) (kept rev extra ++ args) :: expected m rest /\
         state m' = Some (outcome rest) /\ running m' = false).
Proof.
  intros Hd Hs Hi Hr Ht Hb Hn1.
  destruct (declared_handler m pre n f ((n1, f1) :: rest) Hd) as (Hf & Hnp & _ & _ & Hseq).
  assert (Hd' : declared m ((pre ++ [(n, f)]) ++ (n1, f1) :: rest)).
  { now rewrite <- app_assoc. }
  destruct (declared_handler m (pre ++ [(n, f)]) n1 f1 rest Hd') as (Hf1 & Hnp1 & _ & _ & Hseq1).
  set (m0 := observe (Called (label f) []) m).
  set (m1 := observe (Started a)
               (set_transitioning true (add_wiring (Wiring a n1 "error" (kept rev extra)) m0))).
  assert (Hgo : go rev (S k) [] m = Ok m1).
  { eapply go_returns; [rewrite Hs; exact Hf |].
    unfold makeHandler, apply_fn, apply_user. rewrite Hb. fold m0.
    cbn [exec_script exec_call]. unfold toNext.
    assert (Hlt : (stateIndex m0 + 1 <? Z.of_nat (length (stateSequence m0)))%Z = true).
    { subst m0. cbn. rewrite Hi, Hseq1, length_app, length_fmap, length_app. cbn.
      apply Z.ltb_lt. lia. }
    rewrite Hlt.
    assert (Hfind : findState (Index (stateIndex m0 + 1)) m0 = Some n1).
    { subst m0. cbn. rewrite Hi, Hseq1.
      replace (Z.of_nat (length pre) + 1)%Z
        with (Z.of_nat (length ((pre ++ [(n, f)]).*1)))
        by (rewrite length_fmap, length_app; cbn; lia).
      apply seq_at_middle. }
    assert (Htr : toState rev (go rev k) (Index (stateIndex m0 + 1)) (VAction a :: extra) m0
                  = Ok m1).
    { unfold toState. rewrite Hfind. unfold transition.
      assert (Ht1 : truthy_str n1 = true).
      { unfold truthy_str. destruct (String.eqb_spec n1 ""); [contradiction | reflexivity]. }
      subst m1. unfold kept.
      destruct rev; cbn [startable nullish o_action o_success o_error o_argdata or_default];
        rewrite Ht1; reflexivity. }
    rewrite Htr. cbn [bind].
    unfold idle. subst m1. cbn [observe set_transitioning transitioning negb].
    destruct rev; now rewrite !andb_false_r. }
  exists m1. split; [exact Hgo |].
  split; [subst m1 m0; cbn; now rewrite <- app_assoc |].
  split; [reflexivity |].
  intros j args Hw1 Hb1 Hc Hq Hp. unfold on_success. cbn [w_success w_argdata].
  rewrite runState_name. cbv zeta.
  assert (Hidx : index_from (stateSequence (set_transitioning false m1)) n1 0 =
                 Z.of_nat (length (pre ++ [(n, f)]).*1)).
  { subst m1 m0. cbn [observe set_transitioning add_wiring stateSequence]. rewrite Hseq1.
    now rewrite index_from_app. }
  rewrite Hidx.
  destruct (Z.eqb_spec (Z.of_nat (length (pre ++ [(n, f)]).*1)) (-1)); [lia |].
  set (m5 := set_stateIndex _ _).
  destruct (step_then_chain rev j (pre ++ [(n, f)]) n1 f1 rest (kept rev extra ++ args) m5)
    as (m' & E1 & E2 & E3 & E4); try assumption; try reflexivity.
  { eapply declared_ext; [| | exact Hd']; reflexivity. }
  { subst m5. cbn. now rewrite length_fmap. }
  exists m'. split; [exact E1 |]. split; [| auto]. rewrite E2.
  subst m5. cbn [trace set_stateIndex set_state set_transitioning].
  now rewrite (expected_ext m) by reflexivity.
Qed.

Definition asker_with_path : userfn :=
  UserFn 32 (fun _ => [CallToNext [VAction 4; VStr "/root/"]]) false.

Definition asking_with_path_steps : list (string * userfn) :=
  [("state0", asker_with_path); ("state1", observer 33)].

Definition asking_with_path : machine :=
  set_stateIndex 0
    (set_state (Some "state0") (start (declare asking_with_path_steps new_machine))).

Lemma declared_asking_with_path : declared asking_with_path asking_with_path_steps.
Proof.
  constructor; try reflexivity; try (apply (bool_decide_unpack _); vm_compute; exact I).
  repeat constructor.
Qed.

Lemma values_after_action_witness :
  (exists m1 m',
     go Rev2 1 [] asking_with_path = Ok m1 /\
     on_success (go Rev2 2) (Wiring 4 "state1" "error" [VStr "/root/"]) [VStr "files"] m1
       = Ok m' /\
     trace m' = trace m1 ++ [Called 33 [VStr "/root/"; VStr "files"]; Emitted Success []]) /\
  (exists m1 m',
     go Rev1 1 [] asking_with_path = Ok m1 /\
     on_success (go Rev1 2) (Wiring 4 "state1" "error" []) [VStr "files"] m1 = Ok m' /\
     trace m' = trace m1 ++ [Called 33 [VStr "files"]; Emitted Success []]).
Proof.
  split.
  - destruct (values_after_action Rev2 0 [] "state0" asker_with_path 4 [VStr "/root/"]
                "state1" (observer 33) [] asking_with_path
                declared_asking_with_path eq_refl eq_refl eq_refl eq_refl eq_refl)
      as (m1 & E1 & _ & _ & E4).
    { discriminate. }
    destruct (E4 0 [VStr "files"] eq_refl eq_refl I I (Forall_nil_2 _)) as (m' & F1 & F2 & _).
    exists m1, m'. split; [exact E1 |]. split; [exact F1 | exact F2].
  - destruct (values_after_action Rev1 0 [] "state0" asker_with_path 4 [VStr "/root/"]
                "state1" (observer 33) [] asking_with_path
                declared_asking_with_path eq_refl eq_refl eq_refl eq_refl eq_refl)
      as (m1 & E1 & _ & _ & E4).
    { discriminate. }
    destruct (E4 0 [VStr "files"] eq_refl eq_refl I I (Forall_nil_2 _)) as (m' & F1 & F2 & _).
    exists m1, m'. split; [exact E1 |]. split; [exact F1 | exact F2].
Defined.

(** ** An error nobody listens to *)

Lemma trace_logged e m : trace (logged e m) = trace m ++ log_of e.
Proof.
  unfold logged, log_of. destruct (stack_of e) as [[s|]|]; cbn; rewrite ?app_nil_r; auto.
  destruct (truthy_str s); cbn; now rewrite ?app_nil_r.
Qed.

Lemma unheard_error_again args : unheard_error [unheard_error args] = unheard_error args.
Proof. unfold unheard_error. destruct args as [|[] ?]; reflexivity. Qed.

Lemma unheard_error_not_nullish args : nullish (unheard_error args) = false.
Proof. unfold unheard_error. destruct args as [|[] ?]; reflexivity. Qed.

(** X23: on a machine with no listener for 'error' and no custom error
    handler, the 'error' state is fatal: it runs the exit hook and emits,
    the emitter throws, the catch block of [go] logs the stack and, the
    state being 'error', emits again, and this second throw leaves [go].
    The machine is left in 'error', no longer running. *)
Theorem unheard_error_is_thrown rev k args m :
  handlers m !! "error" = Some (FFunction ErrorFn) ->
  state m = Some "error" -> errorHandler m = None -> exit_quiet m ->
  listening Error m = false ->
  exists m',
    go rev (S k) args m = Throw (unheard_error args) m' /\
    trace m' = trace m ++ exit_obs (exitHandler m) ++
               Emitted Error args :: log_of (unheard_error args) ++
               [Emitted Error [unheard_error args]] /\
    state m' = Some "error" /\ running m' = false.
Proof.
  intros Hh Hs He Hq Hl.
  set (m2 := match exitHandler m with
             | Some x => observe (Called (label x) []) m
             | None => m
             end).
  assert (F : trace m2 = trace m ++ exit_obs (exitHandler m) /\ state m2 = Some "error" /\
              errorHandler m2 = None /\ listening Error m2 = false).
  { subst m2. destruct (exitHandler m); cbn; rewrite ?app_nil_r; auto. }
  destruct F as (F1 & F2 & F3 & F4).
  set (m3 := observe (Emitted Error args) (set_running false m2)).
  assert (Hm : makeHandler rev (go rev k) (FFunction ErrorFn) args m =
               Throw (unheard_error args) m3).
  { unfold makeHandler, apply_fn, error_fn, onExit, apply_user. rewrite He. cbn [bind].
    assert (Y : match exitHandler m with
                | Some h => exec_script rev (go rev k) (body h [])
                              (observe (Called (label h) []) m)
                | None => Ok m
                end = Ok m2).
    { subst m2. unfold exit_quiet in Hq. destruct (exitHandler m); [rewrite Hq |]; reflexivity. }
    rewrite Y. cbn [bind]. rewrite F3. cbn [bool_decide negb].
    replace (negb (bool_decide (is_Some (@None userfn)))) with true by reflexivity.
    rewrite (emitError_unheard args m2 F4). reflexivity. }
  rewrite (go_catches rev k args m (FFunction ErrorFn) (unheard_error args) m3);
    [| now rewrite Hs | exact Hm].
  rewrite go_catch_not_nullish by apply unheard_error_not_nullish.
  assert (Hs3 : state_is "error" m3 = true).
  { unfold state_is. subst m3. cbn [observe set_running state]. now rewrite F2. }
  rewrite Hs3. rewrite emitError_unheard.
  - rewrite unheard_error_again. eexists. split; [reflexivity |].
    cbn [observe set_running trace state running]. rewrite trace_logged.
    split; [| split; [| reflexivity]].
    + subst m3. cbn [observe set_running trace]. rewrite F1.
      rewrite <- ?app_assoc. cbn [app]. now rewrite <- ?app_assoc.
    + pose proof (state_is_logged "error" (unheard_error args) m3) as E.
      rewrite Hs3 in E. unfold state_is in E.
      destruct (state (logged (unheard_error args) m3)) as [t|]; [| discriminate].
      apply String.eqb_eq in E. now subst t.
  - rewrite listening_logged. subst m3. exact F4.
Qed.

Lemma unheard_error_is_thrown_witness :
  exists m',
    go Rev1 1 [VStr "boom"]
      (set_state (Some "error") (start (ensure (observer 7) new_machine)))
      = Throw uncaught_error m' /\
    trace m' = [] ++ [Called 7 []] ++
               Emitted Error [VStr "boom"] :: log_of uncaught_error ++
               [Emitted Error [uncaught_error]] /\
    state m' = Some "error" /\ running m' = false.
Proof.
  apply (unheard_error_is_thrown Rev1 0 [VStr "boom"]
           (set_state (Some "error") (start (ensure (observer 7) new_machine)))).
  - reflexivity.
  - reflexivity.
  - reflexivity.
  - reflexivity.
  - reflexivity.
Defined.

End SequencerFacts.

(** * Further properties of actions, state machines and queues *)

Module CoreFacts.

Import Core.

(** ** States of a StateMachine *)

(** The function registered for a state, if one is. *)
Definition registered_fn (w : world) (m : nat) (st : string) : option nat :=
  match actions w !! m with
  | Some a => match handlers a !! st with
              | Some (HFunction l) => Some l
              | _ => None
              end
  | None => None
  end.

Definition undefined_state (st : string) : string :=
  String.append "Undefined state: " st.

Lemma undefined_state_throws m st args w :
  registered_fn w m st = None ->
  exists w',
    transitionTo m st args w = Throw (VStr (undefined_state st)) w' /\
    cursor w' !! m = Some st /\
    actions w' = actions w /\
    log w' = log w ++ [Puts (undefined_state st)].
Proof.
  intros Hr. unfold transitionTo, transitionNow, handler_of.
  cbn [set_cursor actions cursor]. rewrite lookup_insert_eq. cbn [state_name].
  unfold registered_fn in Hr.
  assert (E : match actions w !! m with
              | Some a => handlers a !! st
              | None => None
              end = None \/
              match actions w !! m with
              | Some a => handlers a !! st
              | None => None
              end = Some HNullish).
  { destruct (actions w !! m) as [a|]; [| now left].
    destruct (handlers a !! st) as [[|l]|]; auto. discriminate. }
  destruct E as [E | E]; rewrite E; eexists; (split; [reflexivity |]);
    cbn [observe set_cursor cursor actions log];
    rewrite lookup_insert_eq; auto.
Qed.


(** X13: registering a state that has no handler function yet (none, or
    [undefined] registered before; the name is not one every object
    inherits, under which a lookup finds a function nobody registered)
    and moving to it runs the function registered, with the arguments of
    the move; the functions of the other states and of the other machines
    are untouched. *)
Theorem addState_then_transitionTo m st l args a w :
  actions w !! m = Some a -> registered_fn w m st = None ->
  inherited st = false ->
  let w1 := addState m st (HFunction l) w in
  transitionTo m st args w1 = Ok (observe (Ran m l args) (set_cursor m st w1)) /\
  log w1 = log w /\
  (forall m' st', (m', st') <> (m, st) -> registered_fn w1 m' st' = registered_fn w m' st').
Proof.
  intros Ha Hr _ w1. unfold registered_fn in Hr. rewrite Ha in Hr.
  assert (E : w1 = update_action m (set_handler st (HFunction l)) w).
  { subst w1. unfold addState. rewrite Ha.
    destruct (handlers a !! st) as [[|l0]|]; try reflexivity. discriminate. }
  rewrite E. split; [| split; [reflexivity |]].
  - apply (transitionTo_runs m st args _ (set_handler st (HFunction l) a) l).
    + now rewrite lookup_update_action, Ha.
    + cbn [set_handler handlers]. apply lookup_insert_eq.
  - intros m' st' Hne. unfold registered_fn.
    destruct (decide (m' = m)) as [->|Hm].
    + rewrite lookup_update_action, Ha. cbn [fmap option_fmap option_map set_handler handlers].
      rewrite lookup_insert_ne; [reflexivity | congruence].
    + now rewrite lookup_update_action_ne by congruence.
Qed.

Lemma addState_then_transitionTo_witness :
  transitionTo 0 "ready" [VNum 1]
    (addState 0 "ready" (HFunction 3)
       (addState 0 "ready" HNullish (create 0 (World ∅ ∅ ∅ ∅ [])))) =
  Ok (observe (Ran 0 3 [VNum 1])
        (set_cursor 0 "ready"
           (addState 0 "ready" (HFunction 3)
              (addState 0 "ready" HNullish (create 0 (World ∅ ∅ ∅ ∅ [])))))).
Proof.
  exact (proj1 (addState_then_transitionTo 0 "ready" 3 [VNum 1]
                  (Action [] [LGuard] [] [] {["ready" := HNullish]})
                  (addState 0 "ready" HNullish (create 0 (World ∅ ∅ ∅ ∅ [])))
                  eq_refl eq_refl eq_refl)).
Defined.

(** ** The queue as a container *)

Lemma transitionTo_queues m st args w :
  match transitionTo m st args w with
  | Ok w' | Throw _ w' => queues w' = queues w
  | OutOfFuel => True
  end.
Proof.
  unfold transitionTo, transitionNow.
  destruct (handler_of _ _) as [[|l]|]; reflexivity.
Qed.

Lemma register_spec_queues q m t w :
  match register_spec q m t w with
  | Ok w' | Throw _ w' => queues w' = queues w
  | OutOfFuel => True
  end.
Proof.
  unfold register_spec, transition, count_listeners.
  destruct (t_action t) as [a|]; [| reflexivity]. cbn [bind].
  destruct (declares (t_error t)), (truthy_str (mixin "error" (t_error t))); reflexivity.
Qed.

Lemma register_all_queues q m ts : forall w,
  match forEach (register_spec q m) ts w with
  | Ok w' | Throw _ w' => queues w' = queues w
  | OutOfFuel => True
  end.
Proof.
  induction ts as [|t ts IH]; intros w; [reflexivity |]. cbn [forEach].
  pose proof (register_spec_queues q m t w) as H.
  destruct (register_spec q m t w) as [w1|e w1|]; cbn [bind]; auto.
  specialize (IH w1). destruct (forEach _ ts w1); congruence.
Qed.

(** X14: the queue is append-only until it is started and closed
    afterwards: before [start], [addTransition] puts the spec at the end
    and changes nothing else; once [start] has been called, whether it
    returned or threw, [addTransition] throws and leaves the queue as it
    is. *)
Theorem addTransition_until_started q Q t w :
  queues w !! q = Some Q -> started Q = false ->
  (exists w',
     addTransition q t w = Ok w' /\
     queues w' !! q = Some (TQueue (stateMachine Q) (finalState Q) (transitions Q ++ [t]) false) /\
     actions w' = actions w /\ log w' = log w) /\
  (forall w1, (queue_start q w = Ok w1 \/ exists e, queue_start q w = Throw e w1) ->
     queues w1 !! q = Some (mark_started Q) /\
     addTransition q t w1 = Throw (VStr "Queue already started") w1).
Proof.
  intros Hq Hs. split.
  - unfold addTransition. rewrite Hq, Hs. eexists. split; [reflexivity |].
    unfold update_queue. cbn [queues actions log]. rewrite lookup_alter_eq, Hq.
    cbn. unfold push_transition. rewrite Hs. auto.
  - intros w1 Hstart.
    assert (Hq1 : queues w1 !! q = Some (mark_started Q)).
    { unfold queue_start in Hstart. rewrite Hq in Hstart.
      set (w0 := set_completed q 0 (update_queue q mark_started w)) in Hstart.
      assert (Hq0 : queues w0 !! q = Some (mark_started Q)).
      { subst w0. cbn. now rewrite lookup_alter_eq, Hq. }
      set (first := if Nat.eqb (length (transitions Q)) 0
                    then transitionTo (stateMachine Q) (finalState Q) []
                           (observe (Joined q) w0)
                    else Ok w0) in Hstart.
      assert (Hf : match first with
                   | Ok w' | Throw _ w' => queues w' = queues w0
                   | OutOfFuel => True
                   end).
      { subst first. destruct (Nat.eqb _ 0); [| reflexivity].
        apply (transitionTo_queues _ _ _ (observe (Joined q) w0)). }
      destruct first as [w2|e w2|]; cbn [bind] in Hstart.
      + pose proof (register_all_queues q (stateMachine Q) (transitions Q) w2) as Hr.
        change (forEach (register_spec q (stateMachine Q)) (transitions Q) w2)
          with (forEach (fun t w' => transition (stateMachine Q) t w' >>=
                           fun w'' => Ok (count_listeners q t w'')) (transitions Q) w2) in Hr.
        destruct Hstart as [Hst | [e Hst]]; rewrite Hst in Hr; now rewrite Hr, Hf.
      + destruct Hstart as [Hst | [e' Hst]]; [discriminate |].
        injection Hst as _ <-. now rewrite Hf.
      + destruct Hstart as [Hst | [e' Hst]]; discriminate. }
    split; [exact Hq1 |]. unfold addTransition. now rewrite Hq1.
Qed.

Lemma addTransition_until_started_witness :
  exists w1,
    queue_start 7 queue_world = Ok w1 /\
    addTransition 7 (Spec (Some 1) None None None) w1 =
      Throw (VStr "Queue already started") w1.
Proof.
  eexists. split; [reflexivity |].
  apply (addTransition_until_started 7 (TQueue 0 "done" two_specs false)
           (Spec (Some 1) None None None) queue_world eq_refl eq_refl).
  left. reflexivity.
Defined.

(** ** Cancelling *)

(** [TransitionQueue.prototype.cancel] *)
Definition queue_cancel (fuel : nat) (q : nat) (w : world) : result :=
  match queues w !! q with
  | Some Q =>
      forEach (fun t w' =>
                 match t_action t with
                 | Some a => cancel fuel a w'
                 | None => Throw type_error_undefined w'
                 end)
              (transitions Q) w
  | None => Throw type_error_undefined w
  end.

Definition spec_cancel_log (A : gmap nat action) (h : nat) (t : spec) : list obs :=
  match t_action t with
  | Some a => cancel_log A h a
  | None => []
  end.

Lemma cancel_specs fuel h ts : forall w,
  h < fuel ->
  Forall (fun t => exists a, t_action t = Some a /\ cancellable (actions w) h a = true) ts ->
  forEach (fun t w' =>
             match t_action t with
             | Some a => cancel fuel a w'
             | None => Throw type_error_undefined w'
             end) ts w =
  Ok (append_log (flat_map (spec_cancel_log (actions w) h) ts) w).
Proof.
  induction ts as [|t ts IH]; intros w Hf Hts; cbn [forEach flat_map].
  - now rewrite append_log_nil.
  - apply Forall_cons in Hts as [(a & Ha & Hc) Hts].
    rewrite Ha, (cancel_exact h a w fuel Hc Hf). cbn [bind].
    rewrite IH; [| exact Hf | exact Hts].
    rewrite append_log_app. unfold spec_cancel_log at 2. now rewrite Ha.
Qed.

(** X15: cancelling a queue cancels the action of every spec, in the
    order of the specs, each with its own sub-actions; nothing else is
    touched: the queue stays started and its counter stays as it was. *)
Theorem queue_cancel_reaches_every_spec fuel h q Q w :
  queues w !! q = Some Q -> h < fuel ->
  Forall (fun t => exists a, t_action t = Some a /\ cancellable (actions w) h a = true)
         (transitions Q) ->
  exists w',
    queue_cancel fuel q w = Ok w' /\
    actions w' = actions w /\ queues w' = queues w /\
    completedItems w' = completedItems w /\
    log w' = log w ++ flat_map (spec_cancel_log (actions w) h) (transitions Q) /\
    forall t a, In t (transitions Q) -> t_action t = Some a ->
      In (Emit a Cancel []) (flat_map (spec_cancel_log (actions w) h) (transitions Q)).
Proof.
  intros Hq Hf Hts. unfold queue_cancel. rewrite Hq.
  rewrite (cancel_specs fuel h (transitions Q) w Hf Hts).
  eexists. split; [reflexivity |]. repeat split.
  intros t a Hin Ha. apply in_flat_map. exists t. split; [exact Hin |].
  unfold spec_cancel_log. rewrite Ha. apply cancel_log_self.
  rewrite Forall_forall in Hts.
  destruct (Hts t (proj2 (list_elem_of_In _ _) Hin)) as (a' & Ha' & Hc). congruence.
Qed.

Lemma queue_cancel_reaches_every_spec_witness :
  exists w',
    queue_cancel 2 7 queue_world = Ok w' /\
    log w' = [] ++ [Emit 1 Cancel []; Emit 2 Cancel []].
Proof.
  destruct (queue_cancel_reaches_every_spec 2 1 7 (TQueue 0 "done" two_specs false)
              queue_world eq_refl (Nat.lt_succ_diag_r 1))
    as (w' & E1 & _ & _ & _ & E5 & _).
  { repeat constructor; eexists; split; reflexivity. }
  exists w'. split; [exact E1 | exact E5].
Defined.

(** X16: [cancel] keeps no record of having run: cancelling an action a
    second time emits 'cancel' once more on it and on every descendant,
    so each 'cancel' listener is called again. *)
Theorem cancel_twice_emits_twice fuel h p w :
  cancellable (actions w) h p = true -> h < fuel ->
  cancel fuel p w >>= cancel fuel p =
  Ok (append_log (cancel_log (actions w) h p ++ cancel_log (actions w) h p) w).
Proof.
  intros Hc Hf. rewrite (cancel_exact h p w fuel Hc Hf). cbn [bind].
  rewrite (cancel_exact h p _ fuel); [| exact Hc | exact Hf].
  now rewrite append_log_app.
Qed.

Lemma cancel_twice_emits_twice_witness :
  cancel 2 0 listened_action >>= cancel 2 0 =
  Ok (append_log ([Emit 0 Cancel []] ++ [Emit 0 Cancel []]) listened_action).
Proof.
  apply (cancel_twice_emits_twice 2 1 0 listened_action); [reflexivity | lia].
Defined.

(** ** Failures that do not bubble, and failures that bubble too far *)

(** X17: a sub-action added with bubbling switched off is tracked and
    started, but its failure stays its own: with no listener of its own
    the error is fatal on the sub-action itself, the other sub-actions
    are not cancelled and nothing is emitted on the parent. *)
Theorem addAction_without_bubbling p sub opts pobj sobj w :
  bubbling opts = false -> p <> sub ->
  actions w !! p = Some pobj -> actions w !! sub = Some sobj ->
  on_error sobj = [LGuard] ->
  let w1 := addAction p sub opts w in
  actions w1 !! p = Some (push_sub sub pobj) /\
  actions w1 !! sub = Some sobj /\
  log w1 = log w ++ [StartRequested sub] /\
  forall n args,
    emitError (S n) sub args w1 =
    Throw (VStr (unhandled args))
      (append_log (Emit sub Error args :: stack_puts (hd VUndefined args) ++
                   [Puts (unhandled args)]) w1).
Proof.
  intros Hb Hne Hp Hs Hl w1.
  assert (E1 : actions w1 !! p = Some (push_sub sub pobj)).
  { subst w1. unfold addAction, start, observe, update_action. rewrite Hb.
    cbn [actions]. now rewrite lookup_alter_eq, Hp. }
  assert (E2 : actions w1 !! sub = Some sobj).
  { subst w1. unfold addAction, start, observe, update_action. rewrite Hb.
    cbn [actions]. now rewrite lookup_alter_ne, Hs by congruence. }
  split; [exact E1 |]. split; [exact E2 |].
  split; [subst w1; unfold addAction; rewrite Hb; reflexivity |].
  intros n args. now apply (guard_alone n sub sobj).
Qed.

Lemma addAction_without_bubbling_witness :
  emitError 1 3 [VStr "lost"] (addAction 0 3 (Some false) siblings) =
  Throw (VStr "Unhandled error in action: lost")
    (append_log ([Emit 3 Error [VStr "lost"]] ++ [Puts "Unhandled error in action: lost"])
       (addAction 0 3 (Some false) siblings)).
Proof.
  apply (addAction_without_bubbling 0 3 (Some false) (Action [] [LGuard] [] [1; 2] ∅)
           (Action [] [LGuard] [] [] ∅) siblings eq_refl (Nat.neq_0_succ 2)
           eq_refl eq_refl eq_refl).
Defined.

(** X18: an error that bubbles to a parent nobody listens to is fatal
    there: the failing sub-action's siblings are cancelled, the error is
    emitted on the parent, printed, and thrown out of the sub-action's
    own [emitError]. *)
Theorem bubbled_error_unhandled_on_parent p sub pobj sobj w h n args :
  actions w !! p = Some pobj -> actions w !! sub = Some sobj ->
  on_error pobj = [LGuard] -> on_error sobj = [LGuard; LBubble p sub] ->
  (forall s, In s (subActions pobj) -> s <> sub -> cancellable (actions w) h s = true) ->
  h < n ->
  emitError (S (S n)) sub args w =
  Throw (VStr (unhandled args))
    (append_log (Emit sub Error args :: others_log (actions w) h sub (subActions pobj) ++
                 Emit p Error args :: stack_puts (hd VUndefined args) ++
                 [Puts (unhandled args)]) w).
Proof.
  intros Hp Hs Hlp Hls Hc Hn.
  rewrite (bubble_fires p sub pobj sobj [] w h args (S n)); try assumption;
    try reflexivity; [| lia].
  rewrite (guard_alone n p pobj); [| exact Hp | exact Hlp].
  rewrite append_log_app. cbn [heard flat_map app]. reflexivity.
Qed.

Lemma bubbled_error_unhandled_on_parent_witness :
  emitError 4 3 [VStr "lost"] (addAction 0 3 None siblings) =
  Throw (VStr "Unhandled error in action: lost")
    (append_log ([Emit 3 Error [VStr "lost"]; Emit 1 Cancel []; Emit 2 Cancel [];
                  Emit 0 Error [VStr "lost"]; Puts "Unhandled error in action: lost"])
       (addAction 0 3 None siblings)).
Proof.
  apply (bubbled_error_unhandled_on_parent 0 3 (Action [] [LGuard] [] [1; 2; 3] ∅)
           (Action [] [LGuard; LBubble 0 3] [] [] ∅) (addAction 0 3 None siblings) 1 2
           [VStr "lost"] eq_refl eq_refl eq_refl eq_refl).
  - intros s [<- | [<- | [<- | []]]] H; [reflexivity | reflexivity | now destruct H].
  - lia.
Defined.

(** ** The adapter of callback-style functions *)

(** Truthiness of a value. *)
Definition truthy (v : value) : bool :=
  match v with
  | VUndefined | VNull => false
  | VBool b => b
  | VNum n => negb (Z.eqb n 0)
  | VStr s => truthy_str s
  | VErrorObj _ _ | VAction _ => true
  end.

(** [make(func, ...)]: a new action with one 'cancel' listener, the
    closure that clears [_active].  The closure is observed under [tag]. *)
Definition make (id tag : nat) (w : world) : world :=
  addListener id Cancel (LClient tag) (create id w).

Definition clears_active (id tag : nat) (o : obs) : bool :=
  match o with
  | Heard t a Cancel _ => Nat.eqb t tag && Nat.eqb a id
  | _ => false
  end.

(** [_active]: set at construction, cleared by the 'cancel' listener and
    by nothing else; it is read off the record of that listener's calls. *)
Definition active (id tag : nat) (w : world) : bool :=
  negb (existsb (clears_active id tag) (log w)).

(** The callback [make] appends to the arguments of [func], applied to
    [args]. *)
Definition make_callback (fuel : nat) (id tag : nat) (args : list value) (w : world) : result :=
  if negb (active id tag w) then Ok w
  else
    let err := hd VUndefined args in
    if truthy err
    then emitError fuel id [err] w
    else emitSuccess fuel id (tl args) w.

Lemma heard_client tag a ev args ls :
  In (LClient tag) ls -> In (Heard tag a ev args) (heard a ev args ls).
Proof.
  intros Hin. unfold heard. apply in_flat_map. exists (LClient tag).
  split; [exact Hin | now left].
Qed.

Lemma cancel_clears_active h id tag obj w :
  actions w !! id = Some obj -> In (LClient tag) (on_cancel obj) ->
  active id tag (append_log (cancel_log (actions w) (S h) id) w) = false.
Proof.
  intros Ha Hin. unfold active, append_log. cbn [log].
  rewrite existsb_app, cancel_log_S, Ha.
  replace (existsb (clears_active id tag)
             (flat_map (cancel_log (actions w) h) (subActions obj) ++
              Emit id Cancel [] :: heard id Cancel [] (on_cancel obj))) with true.
  - now rewrite orb_true_r.
  - symmetry. apply existsb_exists. exists (Heard tag id Cancel []). split.
    + apply in_or_app. right. right. now apply heard_client.
    + cbn [clears_active]. now rewrite !Nat.eqb_refl.
Qed.

(** X19: the callback of an adapted function is live until the action is
    cancelled and dead afterwards.  Live, a falsy first argument makes the
    action succeed with the remaining arguments; once [cancel] has
    returned, whatever the callback is given, nothing is emitted and
    nothing changes. *)
Theorem make_callback_dead_after_cancel fuel h id tag obj w :
  actions w !! id = Some obj -> In (LClient tag) (on_cancel obj) ->
  cancellable (actions w) h id = true -> h < fuel ->
  forallb is_client (on_success obj) = true ->
  active id tag w = true ->
  (forall n err rest, truthy err = false ->
     make_callback (S n) id tag (err :: rest) w =
     Ok (append_log (Emit id Success rest :: heard id Success rest (on_success obj)) w)) /\
  exists w1,
    cancel fuel id w = Ok w1 /\
    In (Emit id Cancel []) (log w1) /\
    forall n args, make_callback n id tag args w1 = Ok w1.
Proof.
  intros Ha Hin Hc Hf Hs Hact. split.
  - intros n err rest Herr. unfold make_callback. rewrite Hact. cbn [negb hd tl].
    rewrite Herr. unfold emitSuccess, emit. cbn [exec exec_body].
    apply (emit_to_clients _ id Success rest obj); [exact Ha | now right | exact Hs].
  - rewrite (cancel_exact h id w fuel Hc Hf). eexists. split; [reflexivity |].
    split.
    + unfold append_log. cbn [log]. apply in_or_app. right. now apply cancel_log_self.
    + intros n args. unfold make_callback.
      destruct h as [|h']; [discriminate |].
      now rewrite (cancel_clears_active h' id tag obj w Ha Hin).
Qed.

Lemma make_callback_dead_after_cancel_witness :
  make_callback 1 0 9 [VNull; VNum 4] (make 0 9 (World ∅ ∅ ∅ ∅ [])) =
    Ok (append_log [Emit 0 Success [VNum 4]] (make 0 9 (World ∅ ∅ ∅ ∅ []))) /\
  exists w1,
    cancel 2 0 (make 0 9 (World ∅ ∅ ∅ ∅ [])) = Ok w1 /\
    In (Emit 0 Cancel []) (log w1) /\
    make_callback 1 0 9 [VNull; VNum 4] w1 = Ok w1.
Proof.
  destruct (make_callback_dead_after_cancel 2 1 0 9 (Action [] [LGuard] [LClient 9] [] ∅)
              (make 0 9 (World ∅ ∅ ∅ ∅ [])))
    as (Hlive & w1 & Hcancel & Hemit & Hdead);
    [vm_compute; reflexivity | left; reflexivity | vm_compute; reflexivity | lia
    | reflexivity | vm_compute; reflexivity |].
  split; [exact (Hlive 0 VNull [VNum 4] eq_refl) |].
  exists w1. split; [exact Hcancel |]. split; [exact Hemit | exact (Hdead 1 [VNull; VNum 4])].
Defined.

(** ** The first sequencer: numbered pseudostates

    [NobleMachine] of the first document is a [StateMachine] whose steps
    are registered under the names pseudostate1, pseudostate2, ...; the
    handler of a step reads its own number back from the name of the
    current state. *)

Definition pseudostate_name (n : nat) : string :=
  String.append "pseudostate" (SequencerFacts.decimal n).

(** [\d] *)
Definition is_digit (c : Ascii.ascii) : bool :=
  Nat.leb 48 (Ascii.nat_of_ascii c) && Nat.leb (Ascii.nat_of_ascii c) 57.

(** [s.replace(/[^\d]*/g, '')]: every character that is not a digit is
    removed. *)
Fixpoint strip_non_digits (s : string) : string :=
  match s with
  | EmptyString => EmptyString
  | String c r => if is_digit c then String c (strip_non_digits r) else strip_non_digits r
  end.

(** [parseInt] on a string of decimal digits with no leading zero, or on
    the empty string; [None] is NaN. *)
Definition parseInt (s : string) : option nat :=
  option_map Nat.of_uint (NilZero.uint_of_string s).

(** The counters of the machine. *)
Record pseudo := Pseudo {
  pseudostates : nat;
  pseudostate : nat
}.

(** [next] on machine [m]: the counter is incremented and the wrapper of
    the step is registered under the new number.  The wrapper is recorded
    under the label [lbl] of the step it wraps. *)
Definition next (m lbl : nat) (s : pseudo * world) : pseudo * world :=
  let n := S (pseudostates s.1) in
  (Pseudo n (pseudostate s.1), addState m (pseudostate_name n) (HFunction lbl) s.2).

Definition nextState (p : pseudo) : string :=
  if Nat.leb (pseudostates p) (pseudostate p)
  then "success"
  else pseudostate_name (pseudostate p + 1).

(** The target of [toPrev]; the number below zero is printed with its
    sign. *)
Definition prevstate (p : pseudo) : string :=
  if Nat.ltb (pseudostates p) (pseudostate p)
  then pseudostate_name (pseudostate p)
  else match pseudostate p with
       | O => "pseudostate-1"
       | S k => pseudostate_name k
       end.

(** [toState(state, action)] of the first sequencer. *)
Definition toState (m : nat) (st : string) (action : value) (w : world) : result :=
  match action with
  | VAction a => transition m (Spec (Some a) (Some st) None None) w
  | _ => transitionTo m st [action] w
  end.

Definition toPrev (m : nat) (p : pseudo) (action : value) (w : world) : result :=
  toState m (prevstate p) action w.

Definition toNext (m : nat) (p : pseudo) (action : value) (w : world) : result :=
  toState m (nextState p) action w.

(** A machine after successive calls of [next]. *)
Definition steps (m : nat) (lbls : list nat) (s : pseudo * world) : pseudo * world :=
  fold_left (fun acc l => next m l acc) lbls s.

Lemma strip_digits d :
  strip_non_digits (NilEmpty.string_of_uint d) = NilEmpty.string_of_uint d.
Proof. induction d; cbn; now f_equal. Qed.

Lemma digits_nonempty n : SequencerFacts.decimal n <> "".
Proof.
  unfold SequencerFacts.decimal. intros H.
  apply (f_equal NilEmpty.uint_of_string) in H. rewrite NilEmpty.usu in H.
  cbn in H. injection H as H. pose proof (f_equal Nat.of_uint H) as H0.
  rewrite Unsigned.of_to in H0. cbn in H0. subst n. discriminate.
Qed.

(** X20: the number a step reads back from its state name is the number
    it was registered under. *)
Theorem pseudostate_number_round_trip n :
  parseInt (strip_non_digits (pseudostate_name n)) = Some n.
Proof.
  unfold pseudostate_name.
  change (strip_non_digits (String.append "pseudostate" (SequencerFacts.decimal n)))
    with (strip_non_digits (SequencerFacts.decimal n)).
  unfold SequencerFacts.decimal. rewrite strip_digits. unfold parseInt.
  pose proof (digits_nonempty n) as Hne. unfold SequencerFacts.decimal in Hne.
  unfold NilZero.uint_of_string.
  destruct (NilEmpty.string_of_uint (Nat.to_uint n)) as [|c r] eqn:E; [congruence |].
  rewrite <- E, NilEmpty.usu. cbn. now rewrite Unsigned.of_to.
Qed.

Lemma pseudostate_suffix a b :
  String.append "pseudostate" a = String.append "pseudostate" b -> a = b.
Proof. cbn [String.append]. now intros [= H]. Qed.

Lemma pseudostate_name_inj n k : pseudostate_name n = pseudostate_name k -> n = k.
Proof.
  intros H. apply pseudostate_suffix in H. now apply SequencerFacts.decimal_inj.
Qed.

Lemma pseudostate_name_signed n : pseudostate_name n <> "pseudostate-1".
Proof.
  intros H. apply (pseudostate_suffix _ "-1") in H. unfold SequencerFacts.decimal in H.
  apply (f_equal NilEmpty.uint_of_string) in H. rewrite NilEmpty.usu in H.
  discriminate.
Qed.

Lemma addState_fresh m st l a w :
  actions w !! m = Some a -> registered_fn w m st = None ->
  addState m st (HFunction l) w = update_action m (set_handler st (HFunction l)) w.
Proof.
  intros Ha Hr. unfold registered_fn in Hr. rewrite Ha in Hr.
  unfold addState. rewrite Ha.
  destruct (handlers a !! st) as [[|l0]|]; try reflexivity. discriminate.
Qed.

Lemma registered_fn_set m st l a w m' st' :
  actions w !! m = Some a ->
  registered_fn (update_action m (set_handler st (HFunction l)) w) m' st' =
  if decide ((m', st') = (m, st)) then Some l else registered_fn w m' st'.
Proof.
  intros Ha. unfold registered_fn.
  destruct (decide ((m', st') = (m, st))) as [[= -> ->]|Hne].
  - rewrite lookup_update_action, Ha.
    cbn [fmap option_fmap option_map set_handler handlers]. now rewrite lookup_insert_eq.
  - destruct (decide (m' = m)) as [->|Hm].
    + rewrite lookup_update_action, Ha.
      cbn [fmap option_fmap option_map set_handler handlers].
      rewrite lookup_insert_ne; [reflexivity | congruence].
    + now rewrite lookup_update_action_ne by congruence.
Qed.

Lemma steps_from m lbls : forall p w a,
  actions w !! m = Some a ->
  (forall n, pseudostates p < n -> registered_fn w m (pseudostate_name n) = None) ->
  pseudostates (steps m lbls (p, w)).1 = pseudostates p + length lbls /\
  pseudostate (steps m lbls (p, w)).1 = pseudostate p /\
  log (steps m lbls (p, w)).2 = log w /\
  (forall i l, lbls !! i = Some l ->
     registered_fn (steps m lbls (p, w)).2 m (pseudostate_name (pseudostates p + S i)) = Some l) /\
  (forall m' st, (m' <> m \/ forall n, pseudostates p < n -> st <> pseudostate_name n) ->
     registered_fn (steps m lbls (p, w)).2 m' st = registered_fn w m' st).
Proof.
  induction lbls as [|l lbls IH]; intros p w a Ha Hfresh.
  - cbn. rewrite Nat.add_0_r. repeat split. intros i l Hi. now rewrite lookup_nil in Hi.
  - change (steps m (l :: lbls) (p, w)) with (steps m lbls (next m l (p, w))).
    unfold next. cbn [fst snd].
    rewrite (addState_fresh m _ l a w Ha (Hfresh _ (Nat.lt_succ_diag_r _))).
    set (w1 := update_action m (set_handler (pseudostate_name (S (pseudostates p)))
                                  (HFunction l)) w).
    set (p1 := Pseudo (S (pseudostates p)) (pseudostate p)).
    assert (Ha1 : actions w1 !! m =
                  Some (set_handler (pseudostate_name (S (pseudostates p))) (HFunction l) a)).
    { subst w1. now rewrite lookup_update_action, Ha. }
    assert (Hfresh1 : forall n, pseudostates p1 < n ->
                                registered_fn w1 m (pseudostate_name n) = None).
    { intros n Hn. subst w1 p1. cbn [pseudostates] in Hn.
      rewrite (registered_fn_set m _ l a w _ _ Ha).
      destruct (decide _) as [E|_];
        [apply (f_equal snd) in E; cbn [snd] in E; apply pseudostate_name_inj in E; lia |].
      apply Hfresh. lia. }
    destruct (IH p1 w1 _ Ha1 Hfresh1) as (E1 & E2 & E3 & E4 & E5).
    rewrite E1, E2, E3. subst p1. cbn [pseudostates pseudostate length].
    cbn [pseudostates pseudostate] in E4, E5.
    split; [lia |]. split; [reflexivity |]. split; [reflexivity |]. split.
    + intros [|i] l' Hi.
      * cbn in Hi. injection Hi as <-. rewrite E5.
        -- subst w1. rewrite (registered_fn_set m _ l a w _ _ Ha).
           rewrite Nat.add_1_r. now rewrite decide_True.
        -- right. intros n Hn E. apply pseudostate_name_inj in E. lia.
      * cbn in Hi. specialize (E4 i l' Hi).
        replace (pseudostates p + S (S i)) with (S (pseudostates p) + S i) by lia.
        exact E4.
    + intros m' st Hst. rewrite E5.
      * subst w1. rewrite (registered_fn_set m _ l a w _ _ Ha).
        destruct (decide _) as [[= -> ->]|_]; [| reflexivity].
        destruct Hst as [Hst | Hst]; [congruence |].
        exfalso. apply (Hst (S (pseudostates p))); [lia | reflexivity].
      * destruct Hst as [Hst | Hst]; [now left |]. right. intros n Hn. apply Hst. lia.
Qed.

(** X21: on a machine with no numbered state yet, successive calls of
    [next] register every step, the i-th under the number i, without a
    warning; wherever the cursor stands among the steps but the last,
    [nextState] names a registered step, and from the last step on it
    names 'success'. *)
Theorem next_registers_numbered_steps m lbls a w :
  actions w !! m = Some a ->
  (forall n, registered_fn w m (pseudostate_name n) = None) ->
  let s := steps m lbls (Pseudo 0 0, w) in
  pseudostates s.1 = length lbls /\
  log s.2 = log w /\
  (forall i l, lbls !! i = Some l ->
     registered_fn s.2 m (pseudostate_name (S i)) = Some l /\
     nextState (Pseudo (pseudostates s.1) i) = pseudostate_name (S i)) /\
  (forall c, length lbls <= c -> nextState (Pseudo (pseudostates s.1) c) = "success").
Proof.
  intros Ha Hfresh s.
  destruct (steps_from m lbls (Pseudo 0 0) w a Ha (fun n _ => Hfresh n))
    as (E1 & _ & E3 & E4 & _).
  cbn [pseudostates] in E1, E4. fold s in E1, E3, E4.
  split; [lia |]. split; [exact E3 |]. split.
  - intros i l Hi. split; [exact (E4 i l Hi) |].
    unfold nextState. cbn [pseudostates pseudostate]. rewrite E1. cbn [Nat.add].
    apply lookup_lt_Some in Hi.
    destruct (Nat.leb_spec (length lbls) i); [lia |]. now rewrite Nat.add_1_r.
  - intros c Hc. unfold nextState. cbn [pseudostates pseudostate]. rewrite E1.
    cbn [Nat.add]. now destruct (Nat.leb_spec (length lbls) c); [| lia].
Qed.

Lemma next_registers_numbered_steps_witness :
  registered_fn (steps 0 [5; 6] (Pseudo 0 0, create 0 (World ∅ ∅ ∅ ∅ []))).2 0 "pseudostate2"
    = Some 6 /\
  nextState (Pseudo 2 1) = "pseudostate2".
Proof.
  destruct (next_registers_numbered_steps 0 [5; 6] (Action [] [LGuard] [] [] ∅)
              (create 0 (World ∅ ∅ ∅ ∅ [])))
    as (E1 & _ & E3 & _); [vm_compute; reflexivity | intros n; reflexivity |].
  destruct (E3 1 6 eq_refl) as (R & N). split; [exact R |].
  rewrite E1 in N. exact N.
Defined.

(** X22: the first sequencer has no state before the first step: [toPrev]
    with a plain value, called while the first step runs, targets
    pseudostate0, which [next] never registers, and the move is fatal;
    called before any step has run it targets pseudostate-1, with the same
    end. *)
Theorem toPrev_before_first_pseudostate m lbls a w action :
  actions w !! m = Some a ->
  (forall st, registered_fn w m st = None) ->
  lbls <> [] -> startable action = false ->
  let s := steps m lbls (Pseudo 0 0, w) in
  (exists w',
     toPrev m (Pseudo (pseudostates s.1) 1) action s.2 =
       Throw (VStr "Undefined state: pseudostate0") w' /\
     log w' = log w ++ [Puts "Undefined state: pseudostate0"]) /\
  (exists w',
     toPrev m (Pseudo (pseudostates s.1) 0) action s.2 =
       Throw (VStr "Undefined state: pseudostate-1") w' /\
     log w' = log w ++ [Puts "Undefined state: pseudostate-1"]).
Proof.
  intros Ha Hfresh Hne Hact s.
  destruct (steps_from m lbls (Pseudo 0 0) w a Ha (fun n _ => Hfresh _))
    as (E1 & _ & E3 & _ & E5).
  cbn [pseudostates] in E1, E5. fold s in E1, E3, E5.
  assert (Hlen : 1 <= pseudostates s.1).
  { rewrite E1. destruct lbls; [congruence | cbn; lia]. }
  assert (Hto : forall st, toState m st action s.2 = transitionTo m st [action] s.2).
  { intros st. unfold toState. destruct action; try reflexivity. discriminate. }
  split.
  - unfold toPrev, prevstate. cbn [pseudostates pseudostate].
    destruct (Nat.ltb_spec (pseudostates s.1) 1); [lia |].
    rewrite Hto.
    destruct (undefined_state_throws m (pseudostate_name 0) [action] s.2)
      as (w' & T1 & _ & _ & T4).
    { rewrite E5; [apply Hfresh |]. right. intros n Hn E.
      apply pseudostate_name_inj in E. lia. }
    exists w'. split; [exact T1 |]. rewrite T4, E3. reflexivity.
  - unfold toPrev, prevstate. cbn [pseudostates pseudostate].
    destruct (Nat.ltb_spec (pseudostates s.1) 0); [lia |].
    rewrite Hto.
    destruct (undefined_state_throws m "pseudostate-1" [action] s.2)
      as (w' & T1 & _ & _ & T4).
    { rewrite E5; [apply Hfresh |]. right. intros n Hn E. symmetry in E.
      now apply pseudostate_name_signed in E. }
    exists w'. split; [exact T1 |]. rewrite T4, E3. reflexivity.
Qed.

Lemma toPrev_before_first_pseudostate_witness :
  exists w',
    toPrev 0 (Pseudo 2 1) VUndefined
      (steps 0 [5; 6] (Pseudo 0 0, create 0 (World ∅ ∅ ∅ ∅ []))).2 =
    Throw (VStr "Undefined state: pseudostate0") w' /\
    log w' = [] ++ [Puts "Undefined state: pseudostate0"].
Proof.
  destruct (toPrev_before_first_pseudostate 0 [5; 6] (Action [] [LGuard] [] [] ∅)
              (create 0 (World ∅ ∅ ∅ ∅ [])) VUndefined)
    as ((w' & T & L) & _);
    [vm_compute; reflexivity | intros st; reflexivity | discriminate | reflexivity |].
  exists w'. split; [exact T | exact L].
Defined.

End CoreFacts.
